(** * SonosJS: the XML helper (utils/xml.js) and the UPnP controller (main.js)

    A shallow embedding of the two source files and the properties of
    their behaviour.

    - [Js]       the fragment of the language the code relies on: values and
                 truthiness, [||], objects as ordered own-property tables,
                 the string methods [indexOf], [substr], [split] and
                 [replace] with a global literal pattern;
    - [Uri]      the built-in [decodeURI];
    - [Xml]      utils/xml.js: [xmlNode], [xmlParser] with its four handlers,
                 [query]/[subQuery] and [decodeXml];
    - [Sonos]    main.js: the service state, the device table and the
                 callbacks the transport invokes. *)

From Stdlib Require Import String Ascii ZArith NArith List Bool Lia Permutation.
From stdpp Require Import base option list.
Import ListNotations.

Local Open Scope string_scope.
Local Open Scope list_scope.

(* ===================================================================== *)
(** ** The language fragment *)
(* ===================================================================== *)

Module Js.

(** Exceptions the modelled code can raise. *)
Inductive error :=
| TypeError   (* property access on null or undefined, call of no function *)
| URIError    (* malformed escape sequence in decodeURI *)
| SaxError.   (* the error sax has reported and throws again *)

(** The result of evaluating an expression that may throw. *)
Inductive result (A : Type) :=
| Ok (a : A)
| Throw (e : error).
Arguments Ok {A} a.
Arguments Throw {A} e.

Definition rbind {A B} (m : result A) (k : A -> result B) : result B :=
  match m with
  | Ok a => k a
  | Throw e => Throw e
  end.

Definition rmap {A B} (f : A -> B) (m : result A) : result B :=
  rbind m (fun a => Ok (f a)).

(** Numbers, as far as the modelled code looks at them: NaN and the
    integers (timestamps, delays, indices). *)
Inductive number :=
| NaN
| Num (z : Z).

(** Values. An object is the table of its own properties. *)
#[local] Unset Elimination Schemes.
Inductive value :=
| VUndefined
| VNull
| VBool (b : bool)
| VNumber (n : number)
| VString (s : string)
| VObject (props : list (string * value)).
#[local] Set Elimination Schemes.

(** ToBoolean. *)
Definition truthy (v : value) : bool :=
  match v with
  | VUndefined | VNull => false
  | VBool b => b
  | VNumber NaN => false
  | VNumber (Num z) => negb (z =? 0)%Z
  | VString s => negb (String.eqb s "")
  | VObject _ => true
  end.

(** [a || b]: the left operand when it is truthy, else the right one. *)
Definition or (a b : value) : value := if truthy a then a else b.

(** [o.p] for a value [o] that is not null or undefined: the own
    property, [undefined] when there is none. *)
Fixpoint lookupProp (p : string) (props : list (string * value)) : value :=
  match props with
  | [] => VUndefined
  | (k, v) :: rest => if String.eqb k p then v else lookupProp p rest
  end.

Definition getProp (o : value) (p : string) : result value :=
  match o with
  | VUndefined | VNull => Throw TypeError
  | VObject props => Ok (lookupProp p props)
  | _ => Ok VUndefined
  end.

(** *** String methods *)

(** [s.indexOf(c)] for a one-character [c]: the first position, or -1. *)
Fixpoint indexOf (c : ascii) (s : string) : Z :=
  match s with
  | EmptyString => -1
  | String a rest =>
      if Ascii.eqb a c then 0
      else let i := indexOf c rest in
           if (i <? 0)%Z then -1 else (i + 1)%Z
  end.

(** [s.substr(start)] for a start inside the string: the rest of it. *)
Fixpoint substr (start : nat) (s : string) : string :=
  match start, s with
  | O, _ => s
  | S n, EmptyString => EmptyString
  | S n, String _ rest => substr n rest
  end.

(** [s.split(c)]: the pieces between the occurrences of [c]; never
    empty (the empty string splits into one empty piece). *)
Fixpoint split (c : ascii) (s : string) : list string :=
  match s with
  | EmptyString => [EmptyString]
  | String a rest =>
      if Ascii.eqb a c then EmptyString :: split c rest
      else match split c rest with
           | [] => [String a EmptyString]
           | piece :: pieces => String a piece :: pieces
           end
  end.

(** *** Objects used as tables

    A plain object [{}] by the properties of its own, in the order
    [for (k in o)] visits them: those whose key is an array index first,
    by their number, then the others as they were made. Two keys are
    special to such an object. An assignment to [o["__proto__"]] changes
    what [o] inherits from and makes no property of its own; what [o]
    inherits is not in the table (the loops over [o] skip it, and a plain
    object put there hands the method [hasOwnProperty] on). And
    [hasOwnProperty] is a method [o] inherits: once [o] has a property of
    its own under that key, [o.hasOwnProperty] is that value (here never
    a function), and calling it throws. *)

(** The number a key stands for when it is an array index: a decimal
    numeral without a leading zero, below 2^32 - 1. *)
Definition digitValue (a : ascii) : option N :=
  let n := N_of_ascii a in
  if (48 <=? n)%N && (n <=? 57)%N then Some (n - 48)%N else None.

Fixpoint digitsValue (s : string) (acc : N) : option N :=
  match s with
  | EmptyString => Some acc
  | String a rest =>
      match digitValue a with
      | Some d => digitsValue rest (10 * acc + d)%N
      | None => None
      end
  end.

Definition arrayIndex (k : string) : option N :=
  match k with
  | EmptyString => None
  | String a rest =>
      if Ascii.eqb a "0" && negb (String.eqb rest "") then None
      else match digitsValue k 0%N with
           | Some n => if (n <? 4294967295)%N then Some n else None
           | None => None
           end
  end.

Section Table.
Context {V : Type}.

Definition table := list (string * V).

(** The property of its own that [o] has under [k], if any. *)
Fixpoint get (k : string) (o : table) : option V :=
  match o with
  | [] => None
  | (k', v) :: rest => if String.eqb k' k then Some v else get k rest
  end.

Definition own (k : string) (o : table) : bool :=
  match get k o with Some _ => true | None => false end.

(** [o.hasOwnProperty(k)]. *)
Definition hasOwnProperty (k : string) (o : table) : result bool :=
  if own "hasOwnProperty" o then Throw TypeError else Ok (own k o).

(** The value of an existing property changes where it stands. *)
Fixpoint replaceValue (k : string) (v : V) (o : table) : table :=
  match o with
  | [] => []
  | (k', v') :: rest =>
      if String.eqb k' k then (k, v) :: rest
      else (k', v') :: replaceValue k v rest
  end.

(** A new array index goes before the first key that is a greater index
    or no index. *)
Fixpoint insertIndex (n : N) (k : string) (v : V) (o : table) : table :=
  match o with
  | [] => [(k, v)]
  | (k', v') :: rest =>
      match arrayIndex k' with
      | Some n' =>
          if (n' <? n)%N then (k', v') :: insertIndex n k v rest
          else (k, v) :: o
      | None => (k, v) :: o
      end
  end.

Definition insertNew (k : string) (v : V) (o : table) : table :=
  match arrayIndex k with
  | Some n => insertIndex n k v o
  | None => o ++ [(k, v)]
  end.

(** [o[k] = v]. *)
Definition set (k : string) (v : V) (o : table) : table :=
  if String.eqb k "__proto__" then o
  else if own k o then replaceValue k v o
  else insertNew k v o.

(** [delete o[k]]. *)
Fixpoint delete (k : string) (o : table) : table :=
  match o with
  | [] => []
  | (k', v') :: rest =>
      if String.eqb k' k then delete k rest else (k', v') :: delete k rest
  end.

Definition keys (o : table) : list string := map fst o.

(** No property of [o] hides the method [hasOwnProperty]. *)
Definition callable (o : table) : Prop := get "hasOwnProperty" o = None.
End Table.
Arguments table V : clear implicits.

End Js.

(* ===================================================================== *)
(** ** decodeURI *)
(* ===================================================================== *)

Module Uri.
Import Js.
Local Open Scope N_scope.

(** A string as the sequence of its 16-bit code units; [decodeURI] can
    produce units that no 8-bit character holds. *)
Definition jsstring := list N.

Definition units (s : string) : jsstring :=
  map N_of_ascii (list_ascii_of_string s).

Definition hexDigit (c : N) : option N :=
  if (48 <=? c) && (c <=? 57) then Some (c - 48)
  else if (65 <=? c) && (c <=? 70) then Some (c - 55)
  else if (97 <=? c) && (c <=? 102) then Some (c - 87)
  else None.

Definition hexByte (hi lo : N) : option N :=
  match hexDigit hi, hexDigit lo with
  | Some a, Some b => Some (16 * a + b)
  | _, _ => None
  end.

Definition percent : N := 37.

(** The characters [decodeURI] does not unescape: uriReserved plus "#". *)
Definition reservedURISet : list N := units ";/?:@&=+$,#".

Definition inSet (c : N) (set : list N) : bool := existsb (N.eqb c) set.

(** A continuation octet [%XX] with bits 10xxxxxx. *)
Definition contOctet (p hi lo : N) : option N :=
  if p =? percent then
    match hexByte hi lo with
    | Some b => if b / 64 =? 2 then Some (b mod 64) else None
    | None => None
    end
  else None.

(** The code units of a decoded code point, or nothing when the octets
    were not the UTF-8 encoding of a code point ([lo] is the least value
    the length of the sequence may encode). *)
Definition codeUnits (lo V : N) : option jsstring :=
  if (V <? lo) || (1114111 <? V) || ((55296 <=? V) && (V <=? 57343)) then None
  else if V <? 65536 then Some [V]
  else Some [ N.land (N.shiftr (V - 65536) 10) 1023 + 55296;
              N.land (V - 65536) 1023 + 56320 ].

Definition emit (piece : option jsstring) (rest : result jsstring) : result jsstring :=
  match piece with
  | Some piece => rmap (app piece) rest
  | None => Throw URIError
  end.

(** The abstract operation Decode(string, reservedSet). *)
Fixpoint Decode (reservedSet : list N) (s : jsstring) : result jsstring :=
  match s with
  | [] => Ok []
  | C :: t =>
      if negb (C =? percent) then rmap (cons C) (Decode reservedSet t)
      else
        match t with
        | hi :: lo :: t1 =>
            match hexByte hi lo with
            | None => Throw URIError
            | Some B =>
                if B <? 128 then
                  rmap (app (if inSet B reservedSet then [C; hi; lo] else [B]))
                       (Decode reservedSet t1)
                else if B <? 192 then Throw URIError
                else if B <? 224 then
                  match t1 with
                  | p1 :: a1 :: b1 :: t2 =>
                      match contOctet p1 a1 b1 with
                      | Some o1 =>
                          emit (codeUnits 128 ((B mod 32) * 64 + o1))
                               (Decode reservedSet t2)
                      | None => Throw URIError
                      end
                  | _ => Throw URIError
                  end
                else if B <? 240 then
                  match t1 with
                  | p1 :: a1 :: b1 :: p2 :: a2 :: b2 :: t3 =>
                      match contOctet p1 a1 b1, contOctet p2 a2 b2 with
                      | Some o1, Some o2 =>
                          emit (codeUnits 2048 (((B mod 16) * 64 + o1) * 64 + o2))
                               (Decode reservedSet t3)
                      | _, _ => Throw URIError
                      end
                  | _ => Throw URIError
                  end
                else if B <? 248 then
                  match t1 with
                  | p1 :: a1 :: b1 :: p2 :: a2 :: b2 :: p3 :: a3 :: b3 :: t4 =>
                      match contOctet p1 a1 b1, contOctet p2 a2 b2,
                            contOctet p3 a3 b3 with
                      | Some o1, Some o2, Some o3 =>
                          emit (codeUnits 65536
                                  ((((B mod 8) * 64 + o1) * 64 + o2) * 64 + o3))
                               (Decode reservedSet t4)
                      | _, _, _ => Throw URIError
                      end
                  | _ => Throw URIError
                  end
                else Throw URIError
            end
        | _ => Throw URIError
        end
  end.

Definition decodeURI (encodedURI : jsstring) : result jsstring :=
  Decode reservedURISet encodedURI.

(** *** [replace] with a global pattern that is a literal string *)

Fixpoint startsWith (pat s : jsstring) : bool :=
  match pat, s with
  | [], _ => true
  | _ :: _, [] => false
  | p :: pat', c :: s' => (p =? c) && startsWith pat' s'
  end.

(** Left to right; [skip] counts the units of a match still to pass. *)
Fixpoint replaceFrom (pat rep : jsstring) (skip : nat) (s : jsstring) : jsstring :=
  match s with
  | [] => []
  | c :: rest =>
      match skip with
      | S n => replaceFrom pat rep n rest
      | O =>
          if startsWith pat s
          then rep ++ replaceFrom pat rep (Nat.pred (length pat)) rest
          else c :: replaceFrom pat rep O rest
      end
  end.

(** [s.replace(/pat/g, rep)] for a non-empty literal [pat]. *)
Definition replace (pat rep : string) (s : jsstring) : jsstring :=
  replaceFrom (units pat) (units rep) O s.

End Uri.


(* ===================================================================== *)
(** ** utils/xml.js *)
(* ===================================================================== *)

Module Xml.
Import Js.

(** Nodes refer to each other (a child to its parent, a parent to its
    children), so they live in a store and are named by their place
    in it. *)
Abbreviation loc := nat.

Definition attrs := list (string * string).

Record node := mkNode {
  name : option string;        (* [None] is null *)
  attributes : attrs;
  text : option string;        (* [None] is null *)
  parent : option loc;         (* [None] is null *)
  children : list loc
}.

(** The argument of [xmlNode]; an option left out is [None]. *)
Record nodeOpts := mkOpts {
  opt_name : option string;
  opt_attributes : option attrs;
  opt_text : option string;
  opt_parent : option loc;
  opt_children : option (list loc)
}.

(** [s || null] for a string or missing [s]: the empty string is falsy. *)
Definition stringOrNull (s : option string) : option string :=
  match s with
  | Some s => if String.eqb s "" then None else Some s
  | None => None
  end.

Definition xmlNode (opts : nodeOpts) : node :=
  {| name := stringOrNull (opt_name opts);
     attributes := default [] (opt_attributes opts);
     text := stringOrNull (opt_text opts);
     parent := opt_parent opts;
     children := default [] (opt_children opts) |}.

(** The state of one parser object. [strict] is the first argument given
    to [sax.parser]. *)
Record parser := mkParser {
  strict : value;
  excludeNamespace : value;
  currentTagNode : option loc;
  store : list node
}.

Definition xmlParser (opts : value) : result parser :=
  let opts := or opts (VObject []) in
  rbind (getProp opts "strict") (fun optStrict =>
  rbind (getProp opts "excludeNamespace") (fun optExclude =>
  Ok {| strict := or optStrict (VBool true);
        excludeNamespace := or optExclude (VBool true);
        currentTagNode := None;
        store := [] |})).

Definition getXmlStructure (p : parser) : option loc := currentTagNode p.

(** Reading a property of the object a reference points to; of null it
    throws. *)
Definition deref (h : list node) (r : option loc) : result node :=
  match r with
  | None => Throw TypeError
  | Some l => match h !! l with
              | Some n => Ok n
              | None => Throw TypeError
              end
  end.

Definition setCurrent (p : parser) (c : option loc) : parser :=
  {| strict := strict p; excludeNamespace := excludeNamespace p;
     currentTagNode := c; store := store p |}.

Definition setStore (p : parser) (h : list node) : parser :=
  {| strict := strict p; excludeNamespace := excludeNamespace p;
     currentTagNode := currentTagNode p; store := h |}.

Definition withText (t : string) (n : node) : node :=
  {| name := name n; attributes := attributes n; text := Some t;
     parent := parent n; children := children n |}.

Definition pushChild (c : loc) (n : node) : node :=
  {| name := name n; attributes := attributes n; text := text n;
     parent := parent n; children := children n ++ [c] |}.

(** The first step of [onOpenTag] and of [onCloseTag]:
    [if (excludeNamespace && tagName.indexOf(":") >= 0)
       tagName = tagName.substr(tagName.indexOf(":") + 1)]. *)
Definition stripNamespace (p : parser) (tagName : string) : string :=
  if truthy (excludeNamespace p) && (0 <=? indexOf ":" tagName)%Z
  then substr (Z.to_nat (indexOf ":" tagName + 1)) tagName
  else tagName.

Definition onText (p : parser) (t : string) : parser :=
  match currentTagNode p with
  | Some l => setStore p (alter (withText t) l (store p))
  | None => p
  end.

Definition onOpenTag (p : parser) (tagName : string) (tagAttributes : attrs)
  : result parser :=
  let tagName := stripNamespace p tagName in
  let n := xmlNode {| opt_name := Some tagName;
                      opt_attributes := Some tagAttributes;
                      opt_text := None;
                      opt_parent := currentTagNode p;
                      opt_children := None |} in
  match currentTagNode p with
  | None => Throw TypeError
  | Some l =>
      let c := length (store p) in
      Ok (setCurrent (setStore p (alter (pushChild c) l (store p) ++ [n]))
                     (Some c))
  end.

Definition sameName (a : option string) (b : string) : bool :=
  match a with
  | Some a => String.eqb a b
  | None => false
  end.

Definition onCloseTag (p : parser) (tagName : string) : result parser :=
  let tagName := stripNamespace p tagName in
  rbind (deref (store p) (currentTagNode p)) (fun cur =>
  if sameName (name cur) tagName
  then Ok (setCurrent p (parent cur))
  else Ok p).

(** [onError] writes to the console. *)
Definition onError (p : parser) (message : string) : parser := p.

(** What sax tells the parser object while it reads a text. *)
Inductive event :=
| OpenTag (tagName : string) (tagAttributes : attrs)
| Text (t : string)
| CloseTag (tagName : string)
| Error (message : string).

Definition handle (p : parser) (e : event) : result parser :=
  match e with
  | OpenTag tagName tagAttributes => onOpenTag p tagName tagAttributes
  | Text t => Ok (onText p t)
  | CloseTag tagName => onCloseTag p tagName
  | Error message => Ok (onError p message)
  end.

Fixpoint feed (p : parser) (es : list event) : result parser :=
  match es with
  | [] => Ok p
  | e :: rest => rbind (handle p e) (fun p' => feed p' rest)
  end.

Definition isError (e : event) : bool :=
  match e with
  | Error _ => true
  | _ => false
  end.

(** [parse(xml, callback)], given the events sax has while it reads
    [xml]: a new root named "/" becomes the current node, then
    [parser.write(xml)] brings the events in. sax keeps the error it has
    reported, and [close()] throws it. *)
Definition parse (p : parser) (es : list event) : result parser :=
  let root := xmlNode {| opt_name := Some "/"; opt_attributes := None;
                         opt_text := None; opt_parent := None;
                         opt_children := None |} in
  rbind (feed (setCurrent (setStore p (store p ++ [root]))
                          (Some (length (store p)))) es)
        (fun p' => if existsb isError es then Throw SaxError else Ok p').

(** The body of the [forEach] over the children. *)
Fixpoint forEach {A} (l : list loc) (body : loc -> A -> result A) (acc : A)
  : result A :=
  match l with
  | [] => Ok acc
  | x :: rest => rbind (body x acc) (forEach rest body)
  end.

Fixpoint subQuery (h : list node) (searchPath : list string)
         (subStructure : option loc) : result (list loc) :=
  rbind (deref h subStructure) (fun sub =>
  match searchPath with
  | [] =>
(* searchPath[0] is undefined and differs from every name *)
Ok []
| segment :: rest =>
forEach (children sub) (fun child results =>
  rbind (deref h (Some child)) (fun c =>
  if negb (sameName (name c) segment) then Ok results
  else
    match rest with
    | _ :: _ =>
        rmap (app results) (subQuery h rest (Some child))
    | [] => Ok (results ++ [child])
    end)) []
end).

Definition query (p : parser) (xpath : string) : result (list loc) :=
  let path := split "/" xpath in
  let path := match path with
              | first :: others =>
                  if String.eqb first "" then others else path
              | [] => path
              end in
  subQuery (store p) path (currentTagNode p).

(** The parser object as [xmlParser()] returns it. *)
Definition fresh : parser :=
  {| strict := VBool true; excludeNamespace := VBool true;
     currentTagNode := None; store := [] |}.

(** The events of the text <foo><bar/><bar/><baz/></foo>. *)
Definition fooBarBaz : list event :=
  [ OpenTag "foo" [];
    OpenTag "bar" []; CloseTag "bar";
    OpenTag "bar" []; CloseTag "bar";
    OpenTag "baz" []; CloseTag "baz";
    CloseTag "foo" ].

(** Every child a node lists is a node of the store. *)
Definition closed (h : list node) : Prop :=
  forall l n c, h !! l = Some n -> In c (children n) -> c < length h.

(** Every parent a node names is a node of the store. *)
Definition rooted (h : list node) : Prop :=
  forall l n q, h !! l = Some n -> parent n = Some q -> q < length h.

(** The current node, when there is one, is a node of the store. *)
Definition current (p : parser) : Prop :=
  forall l, currentTagNode p = Some l -> l < length (store p).

(** The path query in the words of its description: at each level the
    direct children whose name is the segment, in document order; the last
    segment gives the result. *)
Definition named (h : list node) (segment : string) (c : loc) : bool :=
  match h !! c with
  | Some n => sameName (name n) segment
  | None => false
  end.

Definition childrenOf (h : list node) (l : loc) : list loc :=
  match h !! l with
  | Some n => children n
  | None => []
  end.

Fixpoint select (h : list node) (path : list string) (l : loc) : list loc :=
  match path with
  | [] => []
  | segment :: rest =>
      let matching := List.filter (named h segment) (childrenOf h l) in
      match rest with
      | [] => matching
      | _ :: _ => flat_map (select h rest) matching
      end
  end.

(** The path [query] hands to [subQuery]. *)
Definition pathOf (xpath : string) : list string :=
  match split "/" xpath with
  | first :: others =>
      if String.eqb first "" then others else first :: others
  | [] => []
  end.

(** [decodeXml]. *)
Definition decodeXml (encodedXml : Uri.jsstring) : result Uri.jsstring :=
  rmap (fun s =>
          Uri.replace "&amp;" "&"
            (Uri.replace "&#039;" "'"
               (Uri.replace "&quot;" (String (ascii_of_nat 34) "")
                  (Uri.replace "&gt;" ">"
                     (Uri.replace "&lt;" "<" s)))))
       (Uri.decodeURI encodedXml).

(** Events of well-nested elements: text anywhere, and every element
    closed, after its content, by a tag of its local name (the name has a
    local part). *)
Inductive nested (p : parser) : list event -> Prop :=
| nested_nil : nested p []
| nested_text t es : nested p es -> nested p (Text t :: es)
| nested_element openName tagAttributes inner closeName es :
    stripNamespace p openName <> "" ->
    stripNamespace p closeName = stripNamespace p openName ->
    nested p inner -> nested p es ->
    nested p (OpenTag openName tagAttributes :: inner ++ CloseTag closeName :: es).

(** No node is named by the empty string. *)
Definition namesNonEmpty (h : list node) : Prop :=
  forall l n, h !! l = Some n -> name n <> Some "".

(** What a later store keeps of an earlier one: the nodes there were,
    with their names and parents. *)
Definition extends (p p' : parser) : Prop :=
  excludeNamespace p' = excludeNamespace p
  /\ length (store p) <= length (store p')
  /\ forall l n, store p !! l = Some n ->
       exists n', store p' !! l = Some n'
                  /\ name n' = name n /\ parent n' = parent n
                  /\ attributes n' = attributes n.

(** Every child names as its parent the node that lists it. *)
Definition linked (h : list node) : Prop :=
  forall l n c, h !! l = Some n -> In c (children n) ->
                exists m, h !! c = Some m /\ parent m = Some l.

(** The node [k] steps up the [parent] references from [r]. *)
Fixpoint ancestor (h : list node) (k : nat) (r : loc) : option loc :=
  match k with
  | O => Some r
  | S k' =>
      match h !! r with
      | Some n =>
          match parent n with
          | Some q => ancestor h k' q
          | None => None
          end
      | None => None
      end
  end.

(** *** Documents as trees

    An element with its attributes, the text chunk it was given (if any)
    and the elements in it; the events it is reported by; and the element
    read back from a node of the store. *)
#[local] Unset Elimination Schemes.
Inductive element :=
| Element (tag : string) (tagAttributes : attrs) (chunk : option string)
          (content : list element).

Fixpoint eventsOf (e : element) : list event :=
  match e with
  | Element tag tagAttributes chunk content =>
      OpenTag tag tagAttributes
      :: (match chunk with Some t => [Text t] | None => [] end
          ++ flat_map eventsOf content ++ [CloseTag tag])
  end.

Fixpoint height (e : element) : nat :=
  match e with
  | Element _ _ _ content => S (list_max (map height content))
  end.

Fixpoint readAll (read : loc -> option element) (cs : list loc)
  : option (list element) :=
  match cs with
  | [] => Some []
  | c :: rest =>
      match read c, readAll read rest with
      | Some e, Some es => Some (e :: es)
      | _, _ => None
      end
  end.

(** [depth] bounds the levels that are read. *)
Fixpoint elementAt (depth : nat) (h : list node) (l : loc) : option element :=
  match depth with
  | O => None
  | S d =>
      match h !! l with
      | Some n =>
          match name n, readAll (elementAt d h) (children n) with
          | Some tag, Some content =>
              Some (Element tag (attributes n) (text n) content)
          | _, _ => None
          end
      | None => None
      end
  end.

(** Tags without a prefix and with a name. *)
Inductive plain : element -> Prop :=
| plain_element tag tagAttributes chunk content :
    tag <> "" -> indexOf ":" tag = (-1)%Z ->
    Forall plain content ->
    plain (Element tag tagAttributes chunk content).
#[local] Set Elimination Schemes.

(** Children come after their parent in the store. *)
Definition forward (h : list node) : Prop :=
  forall l n c, h !! l = Some n -> In c (children n) -> l < c.

(** What holds of the store of a parser at work. *)
Definition sound (p : parser) : Prop :=
  closed (store p) /\ forward (store p) /\ rooted (store p) /\ current p.

(** From [q] to [q'] the nodes [cs] were added to [l] as its last
    children, nothing else of what was there has changed, and [l] is the
    current node. *)
Definition adds (q q' : parser) (l : loc) (cs : list loc) : Prop :=
  currentTagNode q' = Some l
  /\ length (store q) <= length (store q')
  /\ (forall i, i < length (store q) -> i <> l -> store q' !! i = store q !! i)
  /\ exists n0 n1,
       store q !! l = Some n0 /\ store q' !! l = Some n1
       /\ children n1 = children n0 ++ cs
       /\ name n1 = name n0 /\ attributes n1 = attributes n0
       /\ text n1 = text n0 /\ parent n1 = parent n0.

End Xml.

(* ===================================================================== *)
(** ** main.js *)
(* ===================================================================== *)

Module Sonos.
Import Js.
Local Open Scope Z_scope.

(** Modelled from the spec: the device model of the [models] package,
    which main.js requires and whose source is missing. A device has
    [id], [infoUrl], [mediaStateUrl], [lastUpdated] (milliseconds) and
    further descriptive attributes. *)
Record Device := mkDevice {
  id : string;
  infoUrl : string;
  mediaStateUrl : string;
  lastUpdated : Z;
  details : list (string * string)
}.

Definition getInfoUrl (d : Device) : string := infoUrl d.
Definition getLastUpdated (d : Device) : Z := lastUpdated d.
Definition setInfoUrl (d : Device) (location : string) : Device :=
  {| id := id d; infoUrl := location; mediaStateUrl := mediaStateUrl d;
     lastUpdated := lastUpdated d; details := details d |}.

(** Modelled from the spec: the advertisement types of the [ssdp]
    package, whose source is missing; a notification may carry a subtype
    that is none of the three. *)
Inductive advertisementType :=
| alive
| update
| goodbye
| unknown (subtype : string).

(** Modelled from the spec: the two messages of the missing [ssdp]
    package, with the id and the location main.js reads from them. *)
Record DiscoveryResponse := mkResponse {
  response_id : string;
  response_location : string
}.

Record Notification := mkNotification {
  advertisement : advertisementType;
  notification_id : string;
  notification_location : string
}.

(** The functions of [models] and [ssdp] that main.js calls, taken as
    parameters. A parser that cannot build its object answers null
    ([None]). The device model stamps the device, so it is given the
    time. *)
Class Collaborators := {
  device_fromXml : Z -> string -> option Device;
  discoveryResponse_fromData : string -> option DiscoveryResponse;
  notification_fromData : string -> option Notification;
  discoveryRequest_toData : string -> Z -> string
}.

(** Refresh the device list after maximum five minutes. *)
Definition deviceMaxLifetime : Z := 1000 * 60 * 5.

Definition socket := nat.

Record socketOptions := mkSocketOptions {
  remoteIp : string;
  localPort : option Z;
  remotePort : option Z;
  timeout : option Z
}.

(** The functions handed to [setTimeout]. *)
Inductive task :=
| ManageDeviceDecay
| Discover
| SendDiscoveryRequest (s : socket) (time : Z) (data : string).

Inductive logLevel := debug | info | warning | error.

(** The calls into the collaborators, in the order they are made. *)
Inductive effect :=
| Log (level : logLevel) (message : string)
| TriggerDevices (roster : list Device)
| HttpRequest (location : string)
| SetTimeout (t : task) (delay : Z)
| UdpSocket (s : socket) (options : socketOptions)
| SocketOpen (s : socket)
| SocketJoinMulticast (s : socket)
| SocketSend (s : socket) (data : string)
| SocketClose (s : socket).

(** The variables of [sonosService]; [sockets] counts the sockets made
    so far and names the next one. *)
Record state := mkState {
  isServiceRunning : bool;
  multicastGroupSocket : option socket;
  devices : table Device;
  sockets : nat
}.

Definition initial : state :=
  {| isServiceRunning := false; multicastGroupSocket := None;
     devices := []; sockets := O |}.

(** *** A computation reads and writes the state, calls collaborators,
    and may throw. *)
Definition M (A : Type) : Type := state -> result A * state * list effect.

Definition ret {A} (a : A) : M A := fun st => (Ok a, st, []).

Definition bind {A B} (m : M A) (k : A -> M B) : M B :=
  fun st =>
    match m st with
    | (Ok a, st1, out1) =>
        match k a st1 with
        | (r, st2, out2) => (r, st2, out1 ++ out2)
        end
    | (Throw e, st1, out1) => (Throw e, st1, out1)
    end.

Definition throw {A} (e : Js.error) : M A := fun st => (Throw e, st, []).
Definition call (e : effect) : M unit := fun st => (Ok tt, st, [e]).
Definition gets {A} (f : state -> A) : M A := fun st => (Ok (f st), st, []).
Definition modify (f : state -> state) : M unit := fun st => (Ok tt, f st, []).

Notation "'let*' x ':=' m 'in' k" := (bind m (fun x => k))
  (at level 10, x name, m at level 100, k at level 200).
Notation "m '>>' k" := (bind m (fun _ => k))
  (at level 90, right associativity).

Definition setDevices (ds : table Device) (st : state) : state :=
  {| isServiceRunning := isServiceRunning st;
     multicastGroupSocket := multicastGroupSocket st;
     devices := ds; sockets := sockets st |}.

Definition setRunning (b : bool) (st : state) : state :=
  {| isServiceRunning := b;
     multicastGroupSocket := multicastGroupSocket st;
     devices := devices st; sockets := sockets st |}.

Definition setMulticastGroupSocket (s : socket) (st : state) : state :=
  {| isServiceRunning := isServiceRunning st;
     multicastGroupSocket := Some s;
     devices := devices st; sockets := S (sockets st) |}.

Definition countSocket (st : state) : state :=
  {| isServiceRunning := isServiceRunning st;
     multicastGroupSocket := multicastGroupSocket st;
     devices := devices st; sockets := S (sockets st) |}.

(** [for (var k in o)] over the keys [o] had when the loop began. (The
    keys [o] only inherits fail the test every loop here starts with;
    they are left out.) *)
Fixpoint forIn (ks : list string) (body : string -> M unit) : M unit :=
  match ks with
  | [] => ret tt
  | k :: rest => body k >> forIn rest body
  end.

Fixpoint forEach {A} (l : list A) (body : A -> M unit) : M unit :=
  match l with
  | [] => ret tt
  | x :: rest => body x >> forEach rest body
  end.

Section Service.
Context {C : Collaborators}.

(** The devices of a table, as its properties stand. *)
Definition getDevicesOf (ds : table Device) : list Device := map snd ds.

(** [devices.hasOwnProperty(k)]. *)
Definition devicesHasOwnProperty (k : string) : M bool :=
  fun st =>
    match hasOwnProperty k (devices st) with
    | Ok has => (Ok has, st, [])
    | Throw e => (Throw e, st, [])
    end.

(** The loop of [getDevices] over the properties of [ds], those still to
    visit and the list so far; [device] is [devices[deviceId]], the value
    of the property visited. (A property [devices] only inherits fails
    the test and adds nothing; such properties are left out here.) *)
Fixpoint getDevicesLoop (ds rest : table Device) (deviceList : list Device)
  : result (list Device) :=
  match rest with
  | [] => Ok deviceList
  | (deviceId, device) :: rest' =>
      rbind (hasOwnProperty deviceId ds) (fun has =>
        getDevicesLoop ds rest'
          (if has : bool then deviceList ++ [device] else deviceList))
  end.

Definition getDevices : M (list Device) :=
  fun st =>
    match getDevicesLoop (devices st) (devices st) [] with
    | Ok deviceList => (Ok deviceList, st, [])
    | Throw e => (Throw e, st, [])
    end.

Definition removeDevice (deviceId : string) : M unit :=
  let* has := devicesHasOwnProperty deviceId in
  if has : bool then
    modify (fun st => setDevices (delete deviceId (devices st)) st) >>
    let* roster := getDevices in
    call (TriggerDevices roster)
  else ret tt.

Definition addDevice (device : Device) : M unit :=
  let* has := devicesHasOwnProperty (id device) in
  let isNew := negb has in
  modify (fun st => setDevices (set (id device) device (devices st)) st) >>
  if isNew then
    call (Log debug "Added new device") >>
    let* roster := getDevices in
    call (TriggerDevices roster)
  else
    call (Log debug "Updating device").

(** The function given to [net.httpRequest]; it runs when the answer
    has come. *)
Definition xhrCallback (location : string) (now : Z) (xml : string) : M unit :=
  match device_fromXml now xml with
  | None => throw TypeError      (* device.setInfoUrl of null *)
  | Some device => addDevice (setInfoUrl device location)
  end.

Definition requestDeviceDetails (location : string) : M unit :=
  call (Log debug "Making device details request") >>
  call (HttpRequest location) >>
  call (SetTimeout ManageDeviceDecay deviceMaxLifetime).

(** [devices[deviceId]] as the receiver of a method call. *)
Definition deviceAt (deviceId : string) : M Device :=
  let* entry := gets (fun st => get deviceId (devices st)) in
  match entry with
  | Some device => ret device
  | None => throw TypeError
  end.

(** The body of the loop of [manageDeviceDecay]. *)
Definition decayStep (referenceTime : Z) (deviceId : string) : M unit :=
  let* has := devicesHasOwnProperty deviceId in
  if has : bool then
    let* device := deviceAt deviceId in
    if getLastUpdated device <=? referenceTime then
      let* device := deviceAt deviceId in
      let url := getInfoUrl device in
      removeDevice deviceId >>
      requestDeviceDetails url
    else ret tt
  else ret tt.

Definition manageDeviceDecay (now : Z) : M unit :=
  let referenceTime := now - deviceMaxLifetime in
  let* ks := gets (fun st => keys (devices st)) in
  forIn ks (decayStep referenceTime).

Definition onDiscoveryResponse (data : string) : M unit :=
  match discoveryResponse_fromData data with
  | None => ret tt
  | Some discoveryResponse =>
      let* has := devicesHasOwnProperty (response_id discoveryResponse) in
      if negb has then requestDeviceDetails (response_location discoveryResponse)
      else ret tt
  end.

Definition onMulticastNotification (data : string) : M unit :=
  match notification_fromData data with
  | None => ret tt
  | Some notification =>
      call (Log debug "Got a notification message") >>
      let deviceId := notification_id notification in
      match advertisement notification with
      | goodbye => removeDevice deviceId
      | alive | update =>
          requestDeviceDetails (notification_location notification)
      | unknown _ => call (Log error "Unknown advertisement type")
      end
  end.

(** The function given to [setTimeout] in [discover]. *)
Definition sendDiscoveryRequest (s : socket) (time : Z) (data : string) : M unit :=
  call (Log debug "Sending discovery request") >>
  call (SocketSend s data).

(** The function given to [socket.open] in [discover]. *)
Definition discoverOpened (s : socket) : M unit :=
  let data := discoveryRequest_toData
                "urn:schemas-upnp-org:device:ZonePlayer:1" 5 in
  forEach [0; 1; 2; 3] (fun time =>
    call (SetTimeout (SendDiscoveryRequest s time data) (time * 500))).

Definition discover : M unit :=
  call (Log info "Sending discovery on Sonos UPnP controller") >>
  let* s := gets sockets in
  modify countSocket >>
  call (UdpSocket s {| remoteIp := "239.255.255.250"; localPort := None;
                       remotePort := Some 1900; timeout := Some 30 |}) >>
  call (SocketOpen s).

(** The function given to [multicastGroupSocket.open] in [start]. *)
Definition multicastOpened (s : socket) : M unit :=
  call (SocketJoinMulticast s).

(** [start]; [haveSocketSupport] is what [net] says, [isClosed] what
    the socket answers when it is asked. *)
Definition start (haveSocketSupport isClosed : bool) : M unit :=
  if negb haveSocketSupport then
    call (Log error "No socket support. Can not run Sonos controller.")
  else
    call (Log info "Starting the Sonos UPnP controller") >>
    modify (setRunning true) >>
    let* old := gets multicastGroupSocket in
    if match old with Some _ => negb isClosed | None => false end then
      ret tt
    else
      let* s := gets sockets in
      modify (setMulticastGroupSocket s) >>
      call (UdpSocket s {| remoteIp := "239.255.255.250";
                           localPort := Some 1900;
                           remotePort := None; timeout := None |}) >>
      call (SocketOpen s) >>
      let* roster := getDevices in
      call (TriggerDevices roster) >>
      discover >>
      call (SetTimeout Discover 3000) >>
      call (SetTimeout Discover 10000).

Definition stop (isClosed : bool) : M unit :=
  call (Log info "Stopping the Sonos UPnP controller") >>
  modify (setRunning false) >>
  let* old := gets multicastGroupSocket in
  match old with
  | None => ret tt
  | Some s => if isClosed then ret tt else call (SocketClose s)
  end.

(** *** The host

    Everything above runs when the host calls it: the application
    calls [start] and [stop], the transport calls the functions it was
    given, the timer calls the tasks. *)
Inductive callback :=
| Start (haveSocketSupport isClosed : bool)
| Stop (isClosed : bool)
| XhrCallback (location : string) (xml : string)
| OnDiscoveryResponse (data : string)
| OnMulticastNotification (data : string)
| MulticastOpened (s : socket)
| DiscoverOpened (s : socket)
| Timeout (t : task).

Definition runTask (now : Z) (t : task) : M unit :=
  match t with
  | ManageDeviceDecay => manageDeviceDecay now
  | Discover => discover
  | SendDiscoveryRequest s time data => sendDiscoveryRequest s time data
  end.

Definition invoke (now : Z) (c : callback) : M unit :=
  match c with
  | Start haveSocketSupport isClosed => start haveSocketSupport isClosed
  | Stop isClosed => stop isClosed
  | XhrCallback location xml => xhrCallback location now xml
  | OnDiscoveryResponse data => onDiscoveryResponse data
  | OnMulticastNotification data => onMulticastNotification data
  | MulticastOpened s => multicastOpened s
  | DiscoverOpened s => discoverOpened s
  | Timeout t => runTask now t
  end.

(** One call after the other, each at its time. A call that throws
    ends there; the host (the event loop of the browser the service runs
    in) goes on with the next one. *)
Fixpoint loop (calls : list (Z * callback)) (st : state)
  : state * list effect :=
  match calls with
  | [] => (st, [])
  | (now, c) :: rest =>
      match invoke now c st with
      | (_, st1, out1) =>
          match loop rest st1 with
          | (st2, out2) => (st2, out1 ++ out2)
          end
      end
  end.

(** The timers a call made at [now] has set, with the time each is
    due. *)
Fixpoint timers (now : Z) (out : list effect) : list (Z * callback) :=
  match out with
  | [] => []
  | SetTimeout t delay :: rest => (now + delay, Timeout t) :: timers now rest
  | _ :: rest => timers now rest
  end.

(** The datagrams sent, and the rosters published. *)
Fixpoint sends (out : list effect) : list (socket * string) :=
  match out with
  | [] => []
  | SocketSend s data :: rest => (s, data) :: sends rest
  | _ :: rest => sends rest
  end.

Fixpoint notifications (out : list effect) : list (list Device) :=
  match out with
  | [] => []
  | TriggerDevices roster :: rest => roster :: notifications rest
  | _ :: rest => notifications rest
  end.

Fixpoint requests (out : list effect) : list string :=
  match out with
  | [] => []
  | HttpRequest location :: rest => location :: requests rest
  | _ :: rest => requests rest
  end.
End Service.

(** A device model and message parsers to run the service with: the
    description of a device is its id, a datagram is "alive", "update",
    "byebye" or another subtype, a blank, and the id. *)
Definition sampleDevice (now : Z) (xml : string) : option Device :=
  if String.eqb xml "" then None
  else Some {| id := xml; infoUrl := ""; mediaStateUrl := "";
               lastUpdated := now; details := [] |}.

Definition sampleNotification (data : string) : option Notification :=
  match split " " data with
  | [kind; deviceId] =>
      Some {| advertisement :=
                if String.eqb kind "alive" then alive
                else if String.eqb kind "update" then update
                else if String.eqb kind "byebye" then goodbye
                else unknown kind;
              notification_id := deviceId;
              notification_location := String.append "http://" deviceId |}
  | _ => None
  end.

Definition sampleResponse (data : string) : option DiscoveryResponse :=
  if String.eqb data "" then None
  else Some {| response_id := data; response_location := String.append "http://" data |}.

Definition sample : Collaborators :=
  {| device_fromXml := sampleDevice;
     discoveryResponse_fromData := sampleResponse;
     notification_fromData := sampleNotification;
     discoveryRequest_toData := fun target wait => String.append "M-SEARCH " target |}.

(** Two players in the table: the [lastUpdated] of the first is five
    minutes before the time 300000, that of the second a millisecond
    later. *)
Definition kitchen : Device :=
  {| id := "RINCON_A"; infoUrl := "http://10.0.0.2:1400/xml";
     mediaStateUrl := ""; lastUpdated := 0; details := [] |}.

Definition bedroom : Device :=
  {| id := "RINCON_B"; infoUrl := "http://10.0.0.3:1400/xml";
     mediaStateUrl := ""; lastUpdated := 1; details := [] |}.

Definition twoPlayers : state :=
  {| isServiceRunning := true; multicastGroupSocket := Some O;
     devices := [("RINCON_A", kitchen); ("RINCON_B", bedroom)];
     sockets := 2%nat |}.

(** *** The rest of the public interface *)

Section Interface.
Context {C : Collaborators}.

(** [that.requestDeviceDetails(info)]: [info] is the id of a known device
    or the address of a description. *)
Definition that_requestDeviceDetails (about : value) : M unit :=
  let* location :=
    match about with
    | VString text =>
        let* has := devicesHasOwnProperty text in
        if has : bool then
          let* device := deviceAt text in
          ret (Some (getInfoUrl device))
        else ret (Some text)
    | _ => ret None
    end in
  match location with
  | Some location => requestDeviceDetails location
  | None => ret tt
  end.

(** *** [that.requestMediaState]

    The media information of [models] and the request body of [soap] are
    parameters; the calls made here are to [log], [net.soapRequest] and
    [event.trigger]. *)
Context {MediaInfo : Type}.
Variable mediaInfo_fromXml : string -> option MediaInfo.
Variable soap_mediaInfo : string.

Inductive mediaEffect :=
| MediaLog (level : logLevel) (message : string)
| SoapRequest (url : string) (body : string)
| TriggerMediaInfo (mediaInfo : MediaInfo).

(** The function given to [net.soapRequest]. *)
Definition soapMediaInfoCallback (xml : string) : list mediaEffect :=
  match mediaInfo_fromXml xml with
  | Some mediaInfo => [TriggerMediaInfo mediaInfo]
  | None => [MediaLog error "Had problems to parse media info XML."]
  end.

(** The calls made, and how the function ends; the state is only read. *)
Definition that_requestMediaState (deviceId : value) (st : state)
  : result unit * list mediaEffect :=
  match match deviceId with
        | VString text =>
            rmap (fun has : bool => if has then get text (devices st) else None)
                 (hasOwnProperty text (devices st))
        | _ => Ok None
        end with
  | Throw e => (Throw e, [])
  | Ok device =>
      let logs :=
        MediaLog debug "Requesting media state for device"
        :: match device with
           | None => [MediaLog warning "No device in cache with id"]
           | Some _ => []
           end in
      match device with
      | None => (Throw TypeError, logs)   (* device.getMediaStateUrl of null *)
      | Some device =>
          (Ok tt, logs ++ [SoapRequest (mediaStateUrl device) soap_mediaInfo])
      end
  end.
End Interface.

(** The timers for a sweep among the calls made. *)
Fixpoint decayTimers (out : list effect) : list Z :=
  match out with
  | [] => []
  | SetTimeout ManageDeviceDecay delay :: rest => delay :: decayTimers rest
  | _ :: rest => decayTimers rest
  end.

(** Every device is stored under its own id. *)
Definition keyedById (ds : table Device) : Prop :=
  forall k d, get k ds = Some d -> id d = k.

End Sonos.

(* ===================================================================== *)
(** * Properties *)
(* ===================================================================== *)

(** ** decodeXml *)

Section DecodeXml.
Import Js Uri Xml.

(** A string without "%" has no escape sequence to decode. *)
Lemma decodeURI_no_escape (s : jsstring) :
  Forall (fun c => c <> percent) s -> decodeURI s = Ok s.
Proof.
  unfold decodeURI. induction 1 as [|c s Hc _ IH]; simpl; [reflexivity|].
  destruct (N.eqb_spec c percent) as [->|_]; [contradiction|]. simpl.
  rewrite IH. reflexivity.
Qed.

(** An escape of a reserved character is left as it is written. *)
Lemma Decode_reserved_kept (set : list N) (hi lo B : N) (rest : jsstring) :
  hexByte hi lo = Some B -> (B <? 128)%N = true -> inSet B set = true ->
  Decode set (percent :: hi :: lo :: rest)
  = rmap (app [percent; hi; lo]) (Decode set rest).
Proof.
  intros HB Hlt Hin. simpl. rewrite HB, Hlt, Hin. reflexivity.
Qed.

(** C3, as the helper behaves: the escapes of "&" and ";" are those of
    reserved characters, so [decodeURI] keeps them and the string
    "%26lt%3Bfoo%26gt%3B" comes back unchanged, not as "<foo>". *)
Lemma decodeXml_escaped_entities_unchanged :
  decodeXml (units "%26lt%3Bfoo%26gt%3B") = Ok (units "%26lt%3Bfoo%26gt%3B")
  /\ units "%26lt%3Bfoo%26gt%3B" <> units "<foo>".
Proof. split; [vm_compute; reflexivity | discriminate]. Qed.

(** C3 (amended): [decodeXml] applied to "%26lt%3Bfoo%26gt%3B" returns
    that string unchanged, because the percent-decoding is [decodeURI],
    which keeps the escapes of reserved characters ("%26" of "&", "%3B"
    of ";"); applied to "&lt;foo&gt;" or to "%3Cfoo%3E" it returns
    "<foo>". For every input the percent-decoding happens first (an
    entity completed by an escape is replaced), then come the five fixed
    substitutions, the one of "&amp;" last (its result is not looked at
    again). *)
Theorem decodeXml_decodeURI_then_entities :
  decodeXml (units "%26lt%3Bfoo%26gt%3B") = Ok (units "%26lt%3Bfoo%26gt%3B")
  /\ decodeXml (units "&lt;foo&gt;") = Ok (units "<foo>")
  /\ decodeXml (units "%3Cfoo%3E") = Ok (units "<foo>")
  /\ decodeXml (units "&l%74;foo&g%74;") = Ok (units "<foo>")
  /\ decodeXml (units "&amp;lt;") = Ok (units "&lt;")
  /\ (forall s : jsstring,
        decodeXml s
        = rmap (fun d =>
                  replace "&amp;" "&"
                    (replace "&#039;" "'"
                       (replace "&quot;" (String (ascii_of_nat 34) "")
                          (replace "&gt;" ">" (replace "&lt;" "<" d)))))
               (decodeURI s)).
Proof.
  repeat split; vm_compute; reflexivity.
Qed.
End DecodeXml.

(** ** The parser object *)

Section Parser.
Import Js Xml.

Lemma truthy_or_true (v : value) : truthy (or v (VBool true)) = true.
Proof. unfold or. destruct (truthy v) eqn:E; [exact E | reflexivity]. Qed.

(** A value that is truthy has properties to read. *)
Lemma getProp_truthy (o : value) (p : string) :
  truthy o = true -> exists v, getProp o p = Ok v.
Proof. destruct o; simpl; try discriminate; eauto. Qed.

Lemma xmlParser_returns (opts : value) :
  exists optStrict optExclude,
    xmlParser opts
    = Ok {| strict := or optStrict (VBool true);
            excludeNamespace := or optExclude (VBool true);
            currentTagNode := None; store := [] |}.
Proof.
  unfold xmlParser.
  assert (Ht : truthy (or opts (VObject [])) = true).
  { unfold or. destruct (truthy opts) eqn:E; [exact E | reflexivity]. }
  destruct (getProp_truthy _ "strict" Ht) as [a ->].
  destruct (getProp_truthy _ "excludeNamespace" Ht) as [b ->].
  simpl. eauto.
Qed.

(** C9: whatever options the parser is made with, sax is asked for
    strict mode and the handlers strip the namespace prefix: [opts.strict
    || true] and [opts.excludeNamespace || true] are truthy for every
    value of the option, and are [true] itself when the option is a
    boolean, [false] included. *)
Theorem xmlParser_options_cannot_be_disabled (opts : value) :
  (exists p,
      xmlParser opts = Ok p
      /\ truthy (strict p) = true
      /\ truthy (excludeNamespace p) = true
      /\ forall tagName,
          stripNamespace p tagName
          = if (0 <=? indexOf ":" tagName)%Z
            then substr (Z.to_nat (indexOf ":" tagName + 1)) tagName
            else tagName)
  /\ (forall v, truthy (or v (VBool true)) = true)
  /\ (forall b, or (VBool b) (VBool true) = VBool true)
  /\ (forall a b,
        xmlParser (VObject [("strict", VBool a); ("excludeNamespace", VBool b)])
        = Ok {| strict := VBool true; excludeNamespace := VBool true;
                currentTagNode := None; store := [] |}).
Proof.
  split; [|split; [|split]].
  - destruct (xmlParser_returns opts) as (a & b & ->).
    eexists; split; [reflexivity|]. simpl.
    repeat split; try apply truthy_or_true.
    intros tagName. unfold stripNamespace. simpl.
    rewrite truthy_or_true. reflexivity.
  - apply truthy_or_true.
  - intros []; reflexivity.
  - intros [] []; reflexivity.
Qed.

Lemma sameName_false (a : option string) (b : string) :
  a <> Some b -> sameName a b = false.
Proof.
  destruct a as [a|]; simpl; [|reflexivity].
  intros Hne. apply String.eqb_neq. congruence.
Qed.

(** C4: a close-tag event whose name, the prefix stripped, is not the
    name of the current node leaves the parser as it is, the current
    node included, and throws nothing; the events after it are handled
    from that same state. *)
Theorem onCloseTag_other_name_keeps_current
    (p : parser) (tagName : string) (l : loc) (cur : node) :
  currentTagNode p = Some l ->
  store p !! l = Some cur ->
  name cur <> Some (stripNamespace p tagName) ->
  onCloseTag p tagName = Ok p
  /\ forall es, feed p (CloseTag tagName :: es) = feed p es.
Proof.
  intros Hcur Hl Hname.
  assert (Hclose : onCloseTag p tagName = Ok p).
  { unfold onCloseTag, deref. rewrite Hcur, Hl. simpl.
    rewrite (sameName_false _ _ Hname). reflexivity. }
  split; [exact Hclose|].
  intros es. simpl. rewrite Hclose. reflexivity.
Qed.

Lemma onCloseTag_other_name_witness :
  exists p,
    parse fresh [OpenTag "device" []] = Ok p
    /\ onCloseTag p "u:root" = Ok p
    /\ currentTagNode p = Some 1%nat.
Proof.
  eexists. split; [vm_compute; reflexivity|]. split; [|reflexivity].
  refine (proj1 (onCloseTag_other_name_keeps_current
                   _ "u:root" 1%nat
                   {| name := Some "device"; attributes := []; text := None;
                      parent := Some 0%nat; children := [] |} _ _ _)).
  - reflexivity.
  - reflexivity.
  - vm_compute. discriminate.
Defined.

(** *** Text events *)

Lemma lookup_alter_here (f : node -> node) (h : list node) (l : loc) (n : node) :
  h !! l = Some n -> alter f l h !! l = Some (f n).
Proof.
  intros Hl. rewrite list_lookup_alter_eq, Hl. reflexivity.
Qed.

Lemma onText_twice (p : parser) (t1 t2 : string) :
  onText (onText p t1) t2 = onText p t2.
Proof.
  unfold onText. destruct (currentTagNode p) as [l|] eqn:Hcur; simpl.
  - rewrite Hcur. unfold setStore. simpl. f_equal.
    rewrite list_alter_alter_eq. apply list_alter_ext; [|reflexivity].
    intros; reflexivity.
  - rewrite Hcur. reflexivity.
Qed.

(** C10: a text event puts its chunk in the place of the text the current
    node had, whatever that was, so of several chunks for one element only
    the last is kept: two chunks in a row leave what the second alone
    leaves, and with a child element between them the element still ends
    with the second chunk alone. *)
Theorem onText_keeps_last_chunk_only
    (p : parser) (l : loc) (cur : node) (t1 t2 : string) :
  currentTagNode p = Some l ->
  store p !! l = Some cur ->
  store (onText p t2) !! l = Some (withText t2 cur)
  /\ text (withText t2 cur) = Some t2
  /\ currentTagNode (onText p t2) = Some l
  /\ onText (onText p t1) t2 = onText p t2
  /\ forall tagName tagAttributes,
      stripNamespace p tagName <> "" ->
      exists p' n,
        feed p [Text t1; OpenTag tagName tagAttributes; CloseTag tagName; Text t2]
        = Ok p'
        /\ currentTagNode p' = Some l
        /\ store p' !! l = Some n
        /\ text n = Some t2.
Proof.
  intros Hcur Hl.
  assert (Hlt : l < length (store p)) by (eapply lookup_lt_Some; eauto).
  split; [|split; [|split; [|split]]].
  - unfold onText. rewrite Hcur. simpl. apply lookup_alter_here, Hl.
  - reflexivity.
  - unfold onText. rewrite Hcur. exact Hcur.
  - apply onText_twice.
  - intros tagName tagAttributes Hname.
    assert (Hstrip : forall q, excludeNamespace q = excludeNamespace p ->
                               stripNamespace q tagName = stripNamespace p tagName).
    { intros q Hq. unfold stripNamespace. rewrite Hq. reflexivity. }
    set (local := stripNamespace p tagName) in *.
    assert (Hnn : stringOrNull (Some local) = Some local).
    { simpl. destruct (String.eqb_spec local ""); [contradiction | reflexivity]. }
    assert (Hex1 : excludeNamespace (onText p t1) = excludeNamespace p)
      by (unfold onText; rewrite Hcur; reflexivity).
    cbn [feed handle rbind].
    unfold onOpenTag.
    rewrite (Hstrip (onText p t1)) by exact Hex1.
    fold local.
    assert (Hc1 : currentTagNode (onText p t1) = Some l)
      by (unfold onText; rewrite Hcur; exact Hcur).
    rewrite Hc1. cbn [rbind].
    assert (Hs1 : store (onText p t1) = alter (withText t1) l (store p))
      by (unfold onText; rewrite Hcur; reflexivity).
    rewrite Hs1.
    set (h1 := alter (pushChild (length (alter (withText t1) l (store p)))) l
                     (alter (withText t1) l (store p))).
    set (child := xmlNode _).
    set (q := setCurrent _ _).
    assert (Hlen1 : length h1 = length (store p)).
    { unfold h1. rewrite !length_alter. reflexivity. }
    assert (Hq : onCloseTag q tagName
                 = Ok (setCurrent q (Some l))).
    { unfold onCloseTag, deref.
      rewrite (Hstrip q) by exact Hex1. fold local.
      unfold q at 1 2. simpl.
      rewrite length_alter.
      rewrite lookup_app_r by (rewrite Hlen1; reflexivity).
      rewrite Hlen1, Nat.sub_diag. simpl.
      simpl in Hnn. rewrite Hnn. simpl. rewrite String.eqb_refl.
      reflexivity. }
    rewrite Hq. cbn [rbind].
    eexists. eexists. split; [reflexivity|].
    unfold onText. simpl. split; [reflexivity|].
    split.
    + apply lookup_alter_here.
      rewrite lookup_app_l by (rewrite Hlen1; exact Hlt).
      unfold h1. apply lookup_alter_here. apply lookup_alter_here. exact Hl.
    + reflexivity.
Qed.

Lemma onText_keeps_last_chunk_only_witness :
  exists p,
    parse fresh [OpenTag "name" []; Text "Living"] = Ok p
    /\ store (onText p " Room") !! 1%nat
       = Some {| name := Some "name"; attributes := []; text := Some " Room";
                 parent := Some 0%nat; children := [] |}.
Proof.
  eexists. split; [vm_compute; reflexivity|].
  refine (proj1 (onText_keeps_last_chunk_only
                   _ 1%nat
                   {| name := Some "name"; attributes := []; text := Some "Living";
                      parent := Some 0%nat; children := [] |}
                   "" " Room" _ _)); reflexivity.
Defined.

(** *** The store of a parsed document *)

Lemma closed_nil : closed [].
Proof. intros l n c Hl. rewrite lookup_nil in Hl. discriminate. Qed.

Lemma closed_alter_text (h : list node) (l : loc) (t : string) :
  closed h -> closed (alter (withText t) l h).
Proof.
  intros Hc l' n c Hl' Hin. rewrite length_alter.
  rewrite list_lookup_alter in Hl'. case_decide; [subst l'|].
  - destruct (h !! l) as [m|] eqn:Hm; simpl in Hl'; [|discriminate].
    injection Hl' as <-. exact (Hc l m c Hm Hin).
  - exact (Hc l' n c Hl' Hin).
Qed.

Lemma closed_open (h : list node) (l : loc) (n : node) :
  closed h -> children n = [] ->
  closed (alter (pushChild (length h)) l h ++ [n]).
Proof.
  intros Hc Hn l' m c Hl' Hin.
  rewrite length_app, length_alter. simpl.
  destruct (decide (l' < length h)) as [Hlt|Hge].
  - rewrite lookup_app_l in Hl' by (rewrite length_alter; exact Hlt).
    rewrite list_lookup_alter in Hl'. case_decide; [subst l'|].
    + destruct (h !! l) as [k|] eqn:Hk; simpl in Hl'; [|discriminate].
      injection Hl' as <-. simpl in Hin. apply in_app_or in Hin as [Hin|Hin].
      * pose proof (Hc l k c Hk Hin). lia.
      * destruct Hin as [<-|[]]. lia.
    + pose proof (Hc l' m c Hl' Hin). lia.
  - rewrite lookup_app_r in Hl' by (rewrite length_alter; lia).
    rewrite length_alter in Hl'.
    destruct (l' - length h) as [|k] eqn:Hk; simpl in Hl'.
    + injection Hl' as <-. rewrite Hn in Hin. destruct Hin.
    + rewrite lookup_nil in Hl'. discriminate.
Qed.

Lemma handle_closed (p p' : parser) (e : event) :
  closed (store p) -> handle p e = Ok p' -> closed (store p').
Proof.
  intros Hc. destruct e as [tagName tagAttributes|t|tagName|message]; simpl.
  - unfold onOpenTag. destruct (currentTagNode p) as [l|]; [|discriminate].
    intros [= <-]. simpl. apply closed_open; [exact Hc | reflexivity].
  - intros [= <-]. unfold onText.
    destruct (currentTagNode p) as [l|]; [|exact Hc].
    simpl. apply closed_alter_text, Hc.
  - unfold onCloseTag.
    destruct (deref (store p) (currentTagNode p)) as [cur|]; simpl; [|discriminate].
    destruct (sameName (name cur) (stripNamespace p tagName));
      intros [= <-]; exact Hc.
  - intros [= <-]. exact Hc.
Qed.

Lemma feed_closed (es : list event) (p p' : parser) :
  closed (store p) -> feed p es = Ok p' -> closed (store p').
Proof.
  revert p. induction es as [|e es IH]; intros p Hc; simpl.
  - intros [= <-]. exact Hc.
  - destruct (handle p e) as [p1|] eqn:He; simpl; [|discriminate].
    apply IH. eapply handle_closed; eauto.
Qed.

(** When [parse] returns, the events were handled and none was an error. *)
Lemma parse_Ok (es : list event) (p p' : parser) :
  parse p es = Ok p' ->
  feed (setCurrent
          (setStore p (store p ++ [xmlNode {| opt_name := Some "/";
                                              opt_attributes := None;
                                              opt_text := None;
                                              opt_parent := None;
                                              opt_children := None |}]))
          (Some (length (store p)))) es = Ok p'
  /\ existsb isError es = false.
Proof.
  unfold parse. destruct (feed _ es) as [q|]; simpl; [|discriminate].
  destruct (existsb isError es); [discriminate|].
  intros [= <-]. split; reflexivity.
Qed.

Lemma parse_closed (es : list event) (p p' : parser) :
  closed (store p) -> parse p es = Ok p' -> closed (store p').
Proof.
  intros Hc Hparse. apply parse_Ok in Hparse as [Hparse _]. revert Hparse.
  apply feed_closed. simpl.
  intros l n c Hl Hin. rewrite length_app. simpl.
  destruct (decide (l < length (store p))) as [Hlt|Hge].
  - rewrite lookup_app_l in Hl by exact Hlt.
    pose proof (Hc l n c Hl Hin). lia.
  - rewrite lookup_app_r in Hl by lia.
    destruct (l - length (store p)) as [|k]; simpl in Hl.
    + injection Hl as <-. destruct Hin.
    + rewrite lookup_nil in Hl. discriminate.
Qed.

Lemma rooted_alter (f : node -> node) (h : list node) (l : loc) :
  (forall n, parent (f n) = parent n) -> rooted h -> rooted (alter f l h).
Proof.
  intros Hf Hr l' n q Hl' Hq. rewrite length_alter.
  rewrite list_lookup_alter in Hl'. case_decide; [subst l'|].
  - destruct (h !! l) as [m|] eqn:Hm; simpl in Hl'; [|discriminate].
    injection Hl' as <-. rewrite Hf in Hq. exact (Hr l m q Hm Hq).
  - exact (Hr l' n q Hl' Hq).
Qed.

Lemma rooted_snoc (h : list node) (n : node) :
  rooted h -> (forall q, parent n = Some q -> q < length h) -> rooted (h ++ [n]).
Proof.
  intros Hr Hn l m q Hl Hq. rewrite length_app. simpl.
  destruct (decide (l < length h)) as [Hlt|Hge].
  - rewrite lookup_app_l in Hl by exact Hlt.
    pose proof (Hr l m q Hl Hq). lia.
  - rewrite lookup_app_r in Hl by lia.
    destruct (l - length h) as [|k]; simpl in Hl.
    + injection Hl as <-. pose proof (Hn q Hq). lia.
    + rewrite lookup_nil in Hl. discriminate.
Qed.

Lemma handle_current (p p' : parser) (e : event) :
  rooted (store p) -> current p -> handle p e = Ok p' ->
  rooted (store p') /\ current p'.
Proof.
  intros Hr Hcur. destruct e as [tagName tagAttributes|t|tagName|message]; simpl.
  - unfold onOpenTag. destruct (currentTagNode p) as [l|] eqn:Hl; [|discriminate].
    intros [= <-]. simpl. split.
    + apply rooted_snoc.
      * apply rooted_alter; [reflexivity | exact Hr].
      * simpl. intros q [= <-]. rewrite length_alter. apply Hcur, Hl.
    + intros c. unfold setCurrent, setStore. simpl. intros [= <-].
      rewrite length_app, length_alter. simpl. lia.
  - intros [= <-]. unfold onText.
    destruct (currentTagNode p) as [l|] eqn:Hl; [|split; assumption].
    simpl. split.
    + apply rooted_alter; [reflexivity | exact Hr].
    + intros c. unfold setStore. simpl. rewrite length_alter.
      intros Hc. apply Hcur. congruence.
  - unfold onCloseTag, deref.
    destruct (currentTagNode p) as [l|] eqn:Hl; [|discriminate].
    destruct (store p !! l) as [cur|] eqn:Hcurnode; simpl; [|discriminate].
    destruct (sameName (name cur) (stripNamespace p tagName)); intros [= <-].
    + split; [exact Hr|]. intros q. simpl. intros Hq.
      exact (Hr l cur q Hcurnode Hq).
    + split; [exact Hr|]. intros q Hq. apply Hcur. congruence.
  - intros [= <-]. split; assumption.
Qed.

Lemma feed_current (es : list event) (p p' : parser) :
  rooted (store p) -> current p -> feed p es = Ok p' ->
  rooted (store p') /\ current p'.
Proof.
  revert p. induction es as [|e es IH]; intros p Hr Hcur; simpl.
  - intros [= <-]. split; assumption.
  - destruct (handle p e) as [p1|] eqn:He; simpl; [|discriminate].
    destruct (handle_current p p1 e Hr Hcur He). apply IH; assumption.
Qed.

Lemma parse_current (es : list event) (p p' : parser) :
  rooted (store p) -> parse p es = Ok p' -> rooted (store p') /\ current p'.
Proof.
  intros Hr Hparse. apply parse_Ok in Hparse as [Hparse _]. revert Hparse.
  apply feed_current.
  - simpl. apply rooted_snoc; [exact Hr|]. simpl. discriminate.
  - intros l. simpl. intros [= <-]. rewrite length_app. simpl. lia.
Qed.

Lemma rooted_nil : rooted [].
Proof. intros l n q Hl. rewrite lookup_nil in Hl. discriminate. Qed.

(** *** The path query *)

Lemma deref_in_store (h : list node) (l : loc) :
  l < length h -> exists n, h !! l = Some n /\ deref h (Some l) = Ok n.
Proof.
  intros Hlt. destruct (lookup_lt_is_Some_2 h l Hlt) as [n Hn].
  exists n. split; [exact Hn|]. unfold deref. rewrite Hn. reflexivity.
Qed.

(** One round of the loop over the children, the deeper levels given. *)
Lemma forEach_select (h : list node) (segment : string) (rest : list string)
      (cs : list loc) (acc : list loc) :
  (forall c, In c cs -> c < length h) ->
  (forall c, c < length h -> subQuery h rest (Some c) = Ok (select h rest c)) ->
  forEach cs
    (fun child results =>
       rbind (deref h (Some child)) (fun c =>
       if negb (sameName (name c) segment) then Ok results
       else match rest with
            | _ :: _ => rmap (app results) (subQuery h rest (Some child))
            | [] => Ok (results ++ [child])
            end)) acc
  = Ok (acc ++ match rest with
               | [] => List.filter (named h segment) cs
               | _ :: _ => flat_map (select h rest) (List.filter (named h segment) cs)
               end).
Proof.
  intros Hcs Hrest. revert acc.
  induction cs as [|c cs IH]; intros acc.
  - simpl. destruct rest; rewrite app_nil_r; reflexivity.
  - cbn [forEach].
    destruct (deref_in_store h c) as (n & Hn & ->); [apply Hcs; left; reflexivity|].
    assert (Hnamed : named h segment c = sameName (name n) segment)
      by (unfold named; rewrite Hn; reflexivity).
    cbn [rbind List.filter]. rewrite Hnamed.
    assert (IH' := IH (fun c' Hin => Hcs c' (or_intror Hin))).
    destruct (sameName (name n) segment); cbn [negb].
    + destruct rest as [|s rest'].
      * cbn [rbind]. rewrite IH'. rewrite <- app_assoc. reflexivity.
      * rewrite Hrest by (apply Hcs; left; reflexivity).
        cbn [rmap rbind]. rewrite IH'. cbn [flat_map].
        rewrite <- app_assoc. reflexivity.
    + cbn [rbind]. apply IH'.
Qed.

Lemma subQuery_select (h : list node) (path : list string) (l : loc) :
  closed h -> l < length h ->
  subQuery h path (Some l) = Ok (select h path l).
Proof.
  intros Hc. revert l.
  induction path as [|segment rest IH]; intros l Hlt;
    destruct (deref_in_store h l Hlt) as (n & Hn & Hd).
  - simpl subQuery. simpl in Hd. rewrite Hn. reflexivity.
  - cbn [subQuery]. rewrite Hd. cbn [rbind].
    rewrite (forEach_select h segment rest (children n) []).
    + cbn [select app]. unfold childrenOf. rewrite Hn. reflexivity.
    + intros c Hin. exact (Hc l n c Hn Hin).
    + exact IH.
Qed.

(** C8: on the document <foo><bar/><bar/><baz/></foo> the query "/foo/bar"
    returns exactly the two nodes named "bar", the first before the
    second. On every parsed document a query returns, without throwing,
    the nodes reached from the current node through direct children whose
    name equals the segment at each level, in document order; where no
    child has the name of a segment the result is empty. *)
Theorem query_direct_children_by_name :
  (exists p,
      parse fresh fooBarBaz = Ok p
      /\ query p "/foo/bar" = Ok [2; 3]
      /\ (name <$> store p !! 2) = Some (Some "bar")
      /\ (name <$> store p !! 3) = Some (Some "bar")
      /\ (children <$> store p !! 1) = Some [2; 3; 4]
      /\ query p "/foo/qux" = Ok []
      /\ query p "/qux/bar" = Ok [])
  /\ (forall (p p' : parser) (es : list event) (xpath : string) (l : loc),
        closed (store p) -> rooted (store p) ->
        parse p es = Ok p' -> currentTagNode p' = Some l ->
        query p' xpath = Ok (select (store p') (pathOf xpath) l))
  /\ (forall (h : list node) (segment : string) (rest : list string) (l : loc),
        closed h -> l < length h ->
        List.filter (named h segment) (childrenOf h l) = [] ->
        subQuery h (segment :: rest) (Some l) = Ok []).
Proof.
  split; [|split].
  - eexists. split; [vm_compute; reflexivity|].
    repeat split; vm_compute; reflexivity.
  - intros p p' es xpath l Hc Hr Hparse Hcur.
    destruct (parse_current es p p' Hr Hparse) as [_ Hvalid].
    unfold query. rewrite Hcur.
    rewrite subQuery_select by (eauto using parse_closed).
    unfold pathOf. destruct (split "/" xpath) as [|first others]; [reflexivity|].
    destruct (String.eqb first ""); reflexivity.
  - intros h segment rest l Hc Hlt Hnone.
    rewrite subQuery_select by assumption.
    cbn [select]. rewrite Hnone. destruct rest; reflexivity.
Qed.

Lemma query_direct_children_by_name_witness :
  exists p,
    parse fresh fooBarBaz = Ok p
    /\ query p "foo/baz" = Ok (select (store p) ["foo"; "baz"] 0).
Proof.
  eexists. split; [vm_compute; reflexivity|].
  refine (proj1 (proj2 query_direct_children_by_name)
                fresh _ fooBarBaz "foo/baz" 0 closed_nil rooted_nil _ _).
  - vm_compute; reflexivity.
  - reflexivity.
Defined.
End Parser.

(** ** The device table *)

Section TableFacts.
Import Js.
Context {V : Type}.
Implicit Types (o : table V) (k : string) (v : V).

Lemma get_app o o' k :
  get k (o ++ o') = match get k o with Some v => Some v | None => get k o' end.
Proof.
  induction o as [|[k' v'] o IH]; simpl; [reflexivity|].
  destruct (String.eqb k' k); [reflexivity | exact IH].
Qed.

Lemma own_get o k :
  own k o = match get k o with Some _ => true | None => false end.
Proof. reflexivity. Qed.

(** Where a new property is put, the others keep their order. *)
Lemma insertNew_split o k v :
  exists before after,
    o = before ++ after /\ insertNew k v o = before ++ (k, v) :: after.
Proof.
  unfold insertNew. destruct (arrayIndex k) as [n|].
  - induction o as [|[k' v'] o (before & after & Ho & Hi)]; simpl.
    + exists [], []. split; reflexivity.
    + destruct (arrayIndex k') as [n'|]; [destruct (n' <? n)%N|].
      * exists ((k', v') :: before), after. simpl. rewrite Hi, <- Ho.
        split; reflexivity.
      * exists [], ((k', v') :: o). split; reflexivity.
      * exists [], ((k', v') :: o). split; reflexivity.
  - exists o, []. rewrite app_nil_r. split; reflexivity.
Qed.

Lemma get_replaceValue_eq o k v :
  own k o = true -> get k (replaceValue k v o) = Some v.
Proof.
  unfold own. induction o as [|[k' v'] o IH]; simpl; [discriminate|].
  destruct (String.eqb_spec k' k) as [->|Hne]; simpl.
  - intros _. rewrite String.eqb_refl. reflexivity.
  - destruct (String.eqb_spec k' k); [contradiction | exact IH].
Qed.

Lemma get_replaceValue_ne o k k' v :
  k' <> k -> get k' (replaceValue k v o) = get k' o.
Proof.
  intros Hne. induction o as [|[k0 v0] o IH]; simpl; [reflexivity|].
  destruct (String.eqb_spec k0 k) as [->|Hk]; simpl.
  - destruct (String.eqb_spec k k'); [congruence | reflexivity].
  - destruct (String.eqb_spec k0 k'); [reflexivity | exact IH].
Qed.

Lemma keys_replaceValue o k v : keys (replaceValue k v o) = keys o.
Proof.
  induction o as [|[k0 v0] o IH]; simpl; [reflexivity|].
  destruct (String.eqb_spec k0 k) as [->|Hk]; simpl; [reflexivity|].
  rewrite IH. reflexivity.
Qed.

Lemma get_set_eq o k v : k <> "__proto__" -> get k (set k v o) = Some v.
Proof.
  intros Hk. unfold set. destruct (String.eqb_spec k "__proto__"); [contradiction|].
  destruct (own k o) eqn:Hown; [apply get_replaceValue_eq, Hown|].
  destruct (insertNew_split o k v) as (before & after & Ho & ->).
  rewrite own_get, Ho, get_app in Hown. rewrite get_app.
  destruct (get k before); [discriminate|].
  simpl. rewrite String.eqb_refl. reflexivity.
Qed.

Lemma get_set_ne o k k' v : k' <> k -> get k' (set k v o) = get k' o.
Proof.
  intros Hne. unfold set. destruct (String.eqb k "__proto__"); [reflexivity|].
  destruct (own k o); [apply get_replaceValue_ne, Hne|].
  destruct (insertNew_split o k v) as (before & after & Ho & ->).
  rewrite Ho, !get_app. simpl.
  destruct (String.eqb_spec k k'); [congruence | reflexivity].
Qed.

Lemma get_delete_eq o k : get k (delete k o) = None.
Proof.
  induction o as [|[k' v'] o IH]; simpl; [reflexivity|].
  destruct (String.eqb_spec k' k) as [->|Hne]; simpl; [exact IH|].
  destruct (String.eqb_spec k' k); [contradiction | exact IH].
Qed.

Lemma get_delete_ne o k k' : k' <> k -> get k' (delete k o) = get k' o.
Proof.
  intros Hne. induction o as [|[k0 v0] o IH]; simpl; [reflexivity|].
  destruct (String.eqb_spec k0 k) as [->|Hk]; simpl.
  - destruct (String.eqb_spec k k'); [congruence | exact IH].
  - destruct (String.eqb_spec k0 k'); [reflexivity | exact IH].
Qed.

Lemma get_Some_In o k v : get k o = Some v -> In (k, v) o.
Proof.
  induction o as [|[k' v'] o IH]; simpl; [discriminate|].
  destruct (String.eqb_spec k' k) as [->|Hne].
  - intros [= ->]. left; reflexivity.
  - intros Hg. right. exact (IH Hg).
Qed.

Lemma get_Some_keys o k v : get k o = Some v -> In k (keys o).
Proof.
  intros Hg. apply get_Some_In in Hg.
  unfold keys. change k with (fst (k, v)). apply in_map, Hg.
Qed.


(** The method can be called when no property hides it. *)
Lemma hasOwnProperty_callable o k :
  callable o -> hasOwnProperty k o = Ok (own k o).
Proof.
  unfold callable, hasOwnProperty. intros Hc. rewrite own_get, Hc. reflexivity.
Qed.

Lemma hasOwnProperty_hidden o k v :
  get "hasOwnProperty" o = Some v -> hasOwnProperty k o = Throw TypeError.
Proof.
  unfold hasOwnProperty. intros Hc. rewrite own_get, Hc. reflexivity.
Qed.

Lemma own_keys o k : In k (keys o) -> own k o = true.
Proof.
  unfold own. induction o as [|[k' v'] o IH]; simpl; [tauto|].
  destruct (String.eqb_spec k' k) as [->|Hne]; [reflexivity|].
  intros [Heq|Hin]; [contradiction | exact (IH Hin)].
Qed.

Lemma callable_or_hidden o :
  callable o \/ exists v, get "hasOwnProperty" o = Some v.
Proof.
  unfold callable. destruct (get "hasOwnProperty" o) as [v|]; eauto.
Qed.

Lemma callable_delete o k : callable o -> callable (delete k o).
Proof.
  unfold callable. intros Hc.
  destruct (String.eqb_spec "hasOwnProperty" k) as [<-|Hne].
  - apply get_delete_eq.
  - rewrite get_delete_ne by exact Hne. exact Hc.
Qed.

Lemma callable_set o k v :
  k <> "hasOwnProperty" -> callable o -> callable (set k v o).
Proof.
  unfold callable. intros Hk Hc. rewrite get_set_ne by congruence. exact Hc.
Qed.
End TableFacts.

(** ** The service *)

Section ServiceFacts.
Import Js Sonos.
Context {C : Collaborators}.
Local Open Scope Z_scope.

Lemma notifications_app (a b : list effect) :
  notifications (a ++ b) = notifications a ++ notifications b.
Proof.
  induction a as [|e a IH]; simpl; [reflexivity|].
  destruct e; simpl; rewrite ?IH; reflexivity.
Qed.

Lemma requests_app (a b : list effect) :
  requests (a ++ b) = requests a ++ requests b.
Proof.
  induction a as [|e a IH]; simpl; [reflexivity|].
  destruct e; simpl; rewrite ?IH; reflexivity.
Qed.

(** *** The table while its method can be called, and when it cannot *)

Lemma devicesHasOwnProperty_callable (k : string) (st : state) :
  callable (devices st) ->
  devicesHasOwnProperty k st = (Ok (own k (devices st)), st, []).
Proof.
  intros Hc. unfold devicesHasOwnProperty.
  rewrite hasOwnProperty_callable by exact Hc. reflexivity.
Qed.

Lemma devicesHasOwnProperty_hidden (k : string) (st : state) (v : Device) :
  get "hasOwnProperty" (devices st) = Some v ->
  devicesHasOwnProperty k st = (Throw TypeError, st, []).
Proof.
  intros Hc. unfold devicesHasOwnProperty.
  rewrite (hasOwnProperty_hidden _ _ _ Hc). reflexivity.
Qed.

Lemma getDevicesLoop_callable (ds rest : table Device) (deviceList : list Device) :
  callable ds -> incl (keys rest) (keys ds) ->
  getDevicesLoop ds rest deviceList = Ok (deviceList ++ getDevicesOf rest).
Proof.
  intros Hc. revert deviceList.
  induction rest as [|[k d] rest IH]; intros deviceList Hincl; simpl.
  - rewrite app_nil_r. reflexivity.
  - rewrite hasOwnProperty_callable by exact Hc.
    rewrite own_keys by (apply Hincl; left; reflexivity). simpl.
    rewrite IH by (intros x Hx; apply Hincl; right; exact Hx).
    rewrite <- app_assoc. reflexivity.
Qed.

Lemma getDevices_callable (st : state) :
  callable (devices st) ->
  getDevices st = (Ok (getDevicesOf (devices st)), st, []).
Proof.
  intros Hc. unfold getDevices.
  rewrite getDevicesLoop_callable by (exact Hc || apply incl_refl).
  reflexivity.
Qed.

Lemma getDevices_hidden (st : state) (v : Device) :
  get "hasOwnProperty" (devices st) = Some v ->
  getDevices st = (Throw TypeError, st, []).
Proof.
  intros Hc. unfold getDevices.
  destruct (devices st) as [|[k d] rest] eqn:Hds; [discriminate|].
  cbn [getDevicesLoop]. rewrite (hasOwnProperty_hidden _ _ _ Hc). reflexivity.
Qed.

(** Whatever the table holds, [getDevices] changes nothing, and a roster
    it returns is the roster of the table. *)
Lemma getDevices_state (st : state) :
  exists r,
    getDevices st = (r, st, [])
    /\ forall roster, r = Ok roster -> roster = getDevicesOf (devices st).
Proof.
  destruct (callable_or_hidden (devices st)) as [Hc|[v Hv]].
  - rewrite (getDevices_callable _ Hc). eexists. split; [reflexivity|].
    intros roster [= <-]. reflexivity.
  - rewrite (getDevices_hidden _ _ Hv). eexists. split; [reflexivity|].
    discriminate.
Qed.

Lemma addDevice_callable (device : Device) (st : state) :
  callable (devices st) -> id device <> "hasOwnProperty" ->
  addDevice device st
  = (Ok tt, setDevices (set (id device) device (devices st)) st,
     if own (id device) (devices st) then [Log debug "Updating device"]
     else [ Log debug "Added new device";
            TriggerDevices (getDevicesOf (set (id device) device (devices st))) ]).
Proof.
  intros Hc Hid. unfold addDevice, bind at 1.
  rewrite (devicesHasOwnProperty_callable _ _ Hc).
  destruct (own (id device) (devices st)); [reflexivity|].
  unfold bind, modify, call. cbn [negb]. cbn beta iota.
  rewrite getDevices_callable by (apply callable_set; assumption).
  reflexivity.
Qed.

Lemma removeDevice_callable (deviceId : string) (st : state) :
  callable (devices st) ->
  removeDevice deviceId st
  = if own deviceId (devices st)
    then (Ok tt, setDevices (delete deviceId (devices st)) st,
          [TriggerDevices (getDevicesOf (delete deviceId (devices st)))])
    else (Ok tt, st, []).
Proof.
  intros Hc. unfold removeDevice, bind at 1.
  rewrite (devicesHasOwnProperty_callable _ _ Hc).
  destruct (own deviceId (devices st)); [|reflexivity].
  unfold bind, modify, call. cbn beta iota.
  rewrite getDevices_callable by (apply callable_delete; exact Hc).
  reflexivity.
Qed.

(** *** Upsert *)




(** *** Discovery *)

(** C7: one call of [discover] opens one socket, and the function it gives
    to [open] sets four timers, 0, 500, 1000 and 1500 milliseconds after
    the socket has opened; each sends the same datagram on that socket,
    so four datagrams are sent. *)
Theorem discover_sends_four_requests (st : state) (opened : Z) :
  let s := sockets st in
  let data := discoveryRequest_toData "urn:schemas-upnp-org:device:ZonePlayer:1" 5 in
  discover st
  = (Ok tt, countSocket st,
     [ Log info "Sending discovery on Sonos UPnP controller";
       UdpSocket s {| remoteIp := "239.255.255.250"; localPort := None;
                      remotePort := Some 1900; timeout := Some 30 |};
       SocketOpen s ])
  /\ (forall st1,
        discoverOpened s st1
        = (Ok tt, st1,
           [ SetTimeout (SendDiscoveryRequest s 0 data) 0;
             SetTimeout (SendDiscoveryRequest s 1 data) 500;
             SetTimeout (SendDiscoveryRequest s 2 data) 1000;
             SetTimeout (SendDiscoveryRequest s 3 data) 1500 ]))
  /\ (forall st1,
        timers opened (snd (discoverOpened s st1))
        = [ (opened + 0, Timeout (SendDiscoveryRequest s 0 data));
            (opened + 500, Timeout (SendDiscoveryRequest s 1 data));
            (opened + 1000, Timeout (SendDiscoveryRequest s 2 data));
            (opened + 1500, Timeout (SendDiscoveryRequest s 3 data)) ])
  /\ (forall st1,
        sends (snd (loop (timers opened (snd (discoverOpened s st1))) st1))
        = [ (s, data); (s, data); (s, data); (s, data) ]).
Proof.
  cbv zeta. repeat split; intros; reflexivity.
Qed.

(** *** Answers to detail requests *)


(** *** The running flag *)

(** C1, as the service behaves: after [stop] the flag is false, and the
    answer to a detail request that comes then puts its device in the
    table; a goodbye notification that comes then removes one. *)
Lemma completion_after_stop_changes_devices :
  let st := fst (loop (C := sample) [(0, Stop false)] initial) in
  isServiceRunning st = false
  /\ devices st = []
  /\ devices (fst (loop (C := sample)
                        [(1, XhrCallback "http://player:1400/xml" "RINCON_1")] st))
     = [("RINCON_1",
         {| id := "RINCON_1"; infoUrl := "http://player:1400/xml";
            mediaStateUrl := ""; lastUpdated := 1; details := [] |})]
  /\ devices (fst (loop (C := sample)
                        [(1, XhrCallback "http://player:1400/xml" "RINCON_1")] st))
     <> devices st.
Proof.
  cbv zeta. repeat split; try (vm_compute; reflexivity).
  vm_compute. discriminate.
Qed.

Lemma getDevices_setRunning (b : bool) (st : state) :
  getDevices (setRunning b st)
  = (let '(r, st', out) := getDevices st in (r, setRunning b st', out)).
Proof.
  unfold getDevices. simpl.
  destruct (getDevicesLoop (devices st) (devices st) []); reflexivity.
Qed.

Lemma removeDevice_setRunning (b : bool) (deviceId : string) (st : state) :
  removeDevice deviceId (setRunning b st)
  = (let '(r, st', out) := removeDevice deviceId st in (r, setRunning b st', out)).
Proof.
  unfold removeDevice, bind, devicesHasOwnProperty, modify, call, ret,
    getDevices. simpl.
  destruct (hasOwnProperty deviceId (devices st)) as [[|]|]; try reflexivity.
  simpl.
  destruct (getDevicesLoop (delete deviceId (devices st))
                           (delete deviceId (devices st)) []); reflexivity.
Qed.

Lemma addDevice_setRunning (b : bool) (device : Device) (st : state) :
  addDevice device (setRunning b st)
  = (let '(r, st', out) := addDevice device st in (r, setRunning b st', out)).
Proof.
  unfold addDevice, bind, devicesHasOwnProperty, modify, call, ret,
    getDevices. simpl.
  destruct (hasOwnProperty (id device) (devices st)) as [[|]|]; try reflexivity.
  simpl.
  destruct (getDevicesLoop (set (id device) device (devices st))
                           (set (id device) device (devices st)) []); reflexivity.
Qed.

(** C1 (amended): [stop] logs, sets the running flag to false and closes
    the multicast socket when there is one that is not closed; it does
    nothing else, so the device table is as it was. No function reads the
    flag: the answer to a detail request, a discovery response and a
    multicast notification each do with the flag false what they do with it
    true (the answer puts its device in the table, a goodbye removes one).
    A discovery response changes the table in neither case. *)
Theorem completions_do_not_read_running_flag (now : Z) (st : state) (b : bool) :
  (forall isClosed,
      stop isClosed st
      = (Ok tt, setRunning false st,
         Log info "Stopping the Sonos UPnP controller"
         :: match multicastGroupSocket st with
            | Some s => if isClosed then [] else [SocketClose s]
            | None => []
            end))
  /\ isServiceRunning (setRunning false st) = false
  /\ devices (setRunning false st) = devices st
  /\ (forall location xml,
        xhrCallback location now xml (setRunning b st)
        = (let '(r, st', out) := xhrCallback location now xml st in
           (r, setRunning b st', out)))
  /\ (forall data,
        onDiscoveryResponse data (setRunning b st)
        = (let '(r, st', out) := onDiscoveryResponse data st in
           (r, setRunning b st', out)))
  /\ (forall data,
        onMulticastNotification data (setRunning b st)
        = (let '(r, st', out) := onMulticastNotification data st in
           (r, setRunning b st', out)))
  /\ (forall data, devices (snd (fst (onDiscoveryResponse data st))) = devices st).
Proof.
  split; [|split; [reflexivity|split; [reflexivity|split; [|split; [|split]]]]].
  - intros isClosed. unfold stop, bind, gets, modify, call, ret. simpl.
    destruct (multicastGroupSocket st) as [s|]; [destruct isClosed|]; reflexivity.
  - intros location xml. unfold xhrCallback.
    destruct (device_fromXml now xml) as [device|]; [|reflexivity].
    apply addDevice_setRunning.
  - intros data. unfold onDiscoveryResponse.
    destruct (discoveryResponse_fromData data) as [r|]; [|reflexivity].
    unfold bind, devicesHasOwnProperty, requestDeviceDetails, call, ret. simpl.
    destruct (hasOwnProperty (response_id r) (devices st)) as [[|]|]; reflexivity.
  - intros data. unfold onMulticastNotification.
    destruct (notification_fromData data) as [n|]; [|reflexivity].
    destruct (advertisement n); try reflexivity.
    unfold bind at 1 2. simpl.
    rewrite removeDevice_setRunning.
    destruct (removeDevice (notification_id n) st) as [[[|] st'] out]; reflexivity.
  - intros data. unfold onDiscoveryResponse.
    destruct (discoveryResponse_fromData data) as [r|]; [|reflexivity].
    unfold bind, devicesHasOwnProperty, requestDeviceDetails, call, ret. simpl.
    destruct (hasOwnProperty (response_id r) (devices st)) as [[|]|]; reflexivity.
Qed.

(** *** Decay *)

Lemma decayStep_result (referenceTime : Z) (deviceId : string) (st : state) :
  callable (devices st) ->
  decayStep referenceTime deviceId st
  = match get deviceId (devices st) with
    | Some device =>
        if lastUpdated device <=? referenceTime then
          (Ok tt, setDevices (delete deviceId (devices st)) st,
           [ TriggerDevices (getDevicesOf (delete deviceId (devices st)));
             Log debug "Making device details request";
             HttpRequest (infoUrl device);
             SetTimeout ManageDeviceDecay deviceMaxLifetime ])
        else (Ok tt, st, [])
    | None => (Ok tt, st, [])
    end.
Proof.
  intros Hc. unfold decayStep, bind at 1.
  rewrite (devicesHasOwnProperty_callable _ _ Hc), own_get.
  destruct (get deviceId (devices st)) as [device|] eqn:Hget; [|reflexivity].
  unfold deviceAt, getLastUpdated, getInfoUrl, bind at 1 2, gets, ret.
  rewrite Hget. cbn beta iota.
  destruct (lastUpdated device <=? referenceTime); [|reflexivity].
  unfold bind at 1 2. rewrite Hget. cbn beta iota.
  unfold bind at 1. rewrite (removeDevice_callable _ _ Hc), own_get, Hget.
  reflexivity.
Qed.

Lemma decayStep_hidden
    (referenceTime : Z) (deviceId : string) (st : state) (v : Device) :
  get "hasOwnProperty" (devices st) = Some v ->
  decayStep referenceTime deviceId st = (Throw TypeError, st, []).
Proof.
  intros Hv. unfold decayStep, bind at 1.
  rewrite (devicesHasOwnProperty_hidden _ _ _ Hv). reflexivity.
Qed.

Lemma forIn_decay (referenceTime : Z) (ks : list string) (st : state) :
  callable (devices st) ->
  exists st' out,
    forIn ks (decayStep referenceTime) st = (Ok tt, st', out)
    /\ callable (devices st')
    /\ (forall k,
          get k (devices st')
          = match get k (devices st) with
            | Some d =>
                if (lastUpdated d <=? referenceTime) && existsb (String.eqb k) ks
                then None else Some d
            | None => None
            end)
    /\ (forall k d,
          In k ks -> get k (devices st) = Some d ->
          lastUpdated d <= referenceTime ->
          In (infoUrl d) (requests out)).
Proof.
  revert st. induction ks as [|k0 ks IH]; intros st Hc.
  - exists st, []. split; [reflexivity|]. split; [exact Hc|]. split.
    + intros k. destruct (get k (devices st)) as [d|]; [|reflexivity].
      rewrite andb_false_r. reflexivity.
    + intros k d [].
  - cbn [forIn]. unfold bind at 1. rewrite (decayStep_result _ _ _ Hc).
    destruct (get k0 (devices st)) as [d0|] eqn:H0;
      [destruct (lastUpdated d0 <=? referenceTime) eqn:Hold|].
    + (* the device at k0 has decayed and goes *)
      destruct (IH (setDevices (delete k0 (devices st)) st))
        as (st' & out & -> & Hc' & Hget & Hreq);
        [apply callable_delete, Hc|].
      eexists. eexists. split; [reflexivity|]. split; [exact Hc'|]. split.
      * intros k. rewrite Hget. simpl.
        destruct (String.eqb_spec k k0) as [->|Hne].
        -- rewrite get_delete_eq, H0, Hold. reflexivity.
        -- rewrite get_delete_ne by exact Hne. reflexivity.
      * intros k d Hin Hk Hle. rewrite requests_app.
        apply in_or_app.
        destruct (String.eqb_spec k k0) as [->|Hne].
        -- left. rewrite H0 in Hk. injection Hk as <-. simpl. left; reflexivity.
        -- right. destruct Hin as [->|Hin]; [contradiction|].
           apply (Hreq k d Hin); [|exact Hle].
           simpl. rewrite get_delete_ne by exact Hne. exact Hk.
    + (* the device at k0 is fresh and stays *)
      destruct (IH st Hc) as (st' & out & -> & Hc' & Hget & Hreq).
      eexists. eexists. split; [reflexivity|]. split; [exact Hc'|]. split.
      * intros k. rewrite Hget. simpl.
        destruct (String.eqb_spec k k0) as [->|Hne]; [|reflexivity].
        rewrite H0, Hold. reflexivity.
      * intros k d Hin Hk Hle. simpl.
        destruct (String.eqb_spec k k0) as [->|Hne].
        -- rewrite H0 in Hk. injection Hk as <-.
           apply Z.leb_gt in Hold. lia.
        -- destruct Hin as [->|Hin]; [contradiction|]. eauto.
    + (* nothing at k0 *)
      destruct (IH st Hc) as (st' & out & -> & Hc' & Hget & Hreq).
      eexists. eexists. split; [reflexivity|]. split; [exact Hc'|]. split.
      * intros k. rewrite Hget. simpl.
        destruct (String.eqb_spec k k0) as [->|Hne]; [|reflexivity].
        rewrite H0. reflexivity.
      * intros k d Hin Hk Hle. simpl.
        destruct (String.eqb_spec k k0) as [->|Hne]; [congruence|].
        destruct Hin as [->|Hin]; [contradiction|]. eauto.
Qed.

Lemma existsb_eqb_In (k : string) (ks : list string) :
  In k ks -> existsb (String.eqb k) ks = true.
Proof.
  intros Hin. apply existsb_exists. exists k. split; [exact Hin|].
  apply String.eqb_refl.
Qed.

Lemma manageDeviceDecay_hidden (now : Z) (st : state) (v : Device) :
  get "hasOwnProperty" (devices st) = Some v ->
  manageDeviceDecay now st = (Throw TypeError, st, []).
Proof.
  intros Hv. unfold manageDeviceDecay, bind at 1, gets. cbn beta iota zeta.
  destruct (devices st) as [|[k d] rest] eqn:Hds; [discriminate|].
  cbn [keys map fst forIn]. unfold bind at 1.
  rewrite (decayStep_hidden _ _ _ v) by (rewrite Hds; exact Hv).
  reflexivity.
Qed.


End ServiceFacts.




(* ===================================================================== *)
(** * Further properties of main.js *)
(* ===================================================================== *)

Section TableMore.
Import Js.
Context {V : Type}.
Implicit Types (o : table V) (k : string) (v : V).

Lemma get_None_keys o k : get k o = None -> ~ In k (keys o).
Proof.
  induction o as [|[k' v'] o IH]; simpl; [tauto|].
  destruct (String.eqb_spec k' k) as [->|Hne]; [discriminate|].
  intros Hg [Heq|Hin]; [contradiction | exact (IH Hg Hin)].
Qed.

Lemma keys_get_Some o k : In k (keys o) -> exists v, get k o = Some v.
Proof.
  intros Hin. destruct (get k o) as [v|] eqn:Hg; [eauto|].
  destruct (get_None_keys _ _ Hg Hin).
Qed.

Lemma delete_absent o k : get k o = None -> delete k o = o.
Proof.
  induction o as [|[k' v'] o IH]; simpl; [reflexivity|].
  destruct (String.eqb_spec k' k); [discriminate|].
  intros Hg. rewrite (IH Hg). reflexivity.
Qed.

Lemma keys_delete_incl o k k' : In k' (keys (delete k o)) -> In k' (keys o).
Proof.
  induction o as [|[k0 v0] o IH]; simpl; [tauto|].
  destruct (String.eqb k0 k); simpl; tauto.
Qed.

Lemma NoDup_keys_delete o k : List.NoDup (keys o) -> List.NoDup (keys (delete k o)).
Proof.
  induction o as [|[k0 v0] o IH]; simpl; [intros; constructor|].
  intros Hnd. inversion Hnd as [|? ? Hnot Hrest]; subst.
  destruct (String.eqb k0 k); [exact (IH Hrest)|].
  simpl. constructor; [|exact (IH Hrest)].
  intros Hin. apply Hnot. exact (keys_delete_incl _ _ _ Hin).
Qed.

(** The keys after an assignment to a key that was not there. *)
Lemma keys_insertNew o k v : Permutation (k :: keys o) (keys (insertNew k v o)).
Proof.
  destruct (insertNew_split o k v) as (before & after & Ho & ->).
  rewrite Ho. unfold keys. rewrite !map_app. simpl.
  apply Permutation_middle.
Qed.

Lemma keys_set_incl o k v k' : In k' (keys (set k v o)) -> k' = k \/ In k' (keys o).
Proof.
  unfold set. destruct (String.eqb k "__proto__"); [tauto|].
  destruct (own k o); [rewrite keys_replaceValue; tauto|].
  intros Hin.
  apply (Permutation_in _ (Permutation_sym (keys_insertNew o k v))) in Hin.
  destruct Hin as [<-|Hin]; [left; reflexivity | right; exact Hin].
Qed.

Lemma NoDup_keys_set o k v : List.NoDup (keys o) -> List.NoDup (keys (set k v o)).
Proof.
  intros Hnd. unfold set. destruct (String.eqb k "__proto__"); [exact Hnd|].
  destruct (own k o) eqn:Hown; [rewrite keys_replaceValue; exact Hnd|].
  apply (Permutation_NoDup (keys_insertNew o k v)).
  constructor; [|exact Hnd].
  apply get_None_keys. rewrite own_get in Hown.
  destruct (get k o); [discriminate | reflexivity].
Qed.

Lemma keys_set_present o k v v' : get k o = Some v' -> keys (set k v o) = keys o.
Proof.
  intros Hg. unfold set. destruct (String.eqb k "__proto__"); [reflexivity|].
  rewrite own_get, Hg. apply keys_replaceValue.
Qed.
End TableMore.

Section ServiceMore.
Import Js Sonos.
Context {C : Collaborators}.
Local Open Scope Z_scope.

Lemma decayTimers_app (a b : list effect) :
  decayTimers (a ++ b) = decayTimers a ++ decayTimers b.
Proof.
  induction a as [|e a IH]; simpl; [reflexivity|].
  destruct e as [| | |[] ?| | | | |]; simpl; rewrite ?IH; reflexivity.
Qed.

Lemma sends_app (a b : list effect) : sends (a ++ b) = sends a ++ sends b.
Proof.
  induction a as [|e a IH]; simpl; [reflexivity|].
  destruct e; simpl; rewrite ?IH; reflexivity.
Qed.

(** *** What each function does to the state, whatever the table holds *)

Lemma addDevice_state (device : Device) (st : state) :
  exists r st' out,
    addDevice device st = (r, st', out)
    /\ (st' = st \/ st' = setDevices (set (id device) device (devices st)) st)
    /\ requests out = [] /\ decayTimers out = []
    /\ (notifications out = []
        \/ notifications out = [getDevicesOf (devices st')]).
Proof.
  unfold addDevice, bind at 1.
  destruct (callable_or_hidden (devices st)) as [Hc|[v Hv]].
  - rewrite (devicesHasOwnProperty_callable _ _ Hc).
    destruct (own (id device) (devices st)); cbn [negb].
    + eexists. eexists. eexists. split; [reflexivity|]. simpl. auto.
    + unfold bind, modify, call. cbn beta iota.
      destruct (getDevices_state (setDevices (set (id device) device (devices st)) st))
        as (r & -> & Hros).
      destruct r as [roster|e].
      * rewrite (Hros roster eq_refl).
        eexists. eexists. eexists. split; [reflexivity|]. simpl. auto.
      * eexists. eexists. eexists. split; [reflexivity|]. simpl. auto.
  - rewrite (devicesHasOwnProperty_hidden _ _ _ Hv).
    eexists. eexists. eexists. split; [reflexivity|]. simpl. auto.
Qed.

Lemma removeDevice_state (deviceId : string) (st : state) :
  exists r st' out,
    removeDevice deviceId st = (r, st', out)
    /\ (st' = st \/ st' = setDevices (delete deviceId (devices st)) st)
    /\ requests out = [] /\ decayTimers out = []
    /\ (notifications out = []
        \/ notifications out = [getDevicesOf (devices st')]).
Proof.
  unfold removeDevice, bind at 1.
  destruct (callable_or_hidden (devices st)) as [Hc|[v Hv]].
  - rewrite (devicesHasOwnProperty_callable _ _ Hc).
    destruct (own deviceId (devices st)).
    + unfold bind, modify, call. cbn beta iota.
      rewrite getDevices_callable by (apply callable_delete; exact Hc).
      eexists. eexists. eexists. split; [reflexivity|]. simpl. auto.
    + eexists. eexists. eexists. split; [reflexivity|]. simpl. auto.
  - rewrite (devicesHasOwnProperty_hidden _ _ _ Hv).
    eexists. eexists. eexists. split; [reflexivity|]. simpl. auto.
Qed.

(** X1: in a table whose method can be called, [removeDevice] ends with
    the id out of the table and the other entries as they were. When the
    id was in the table one roster is published, the table without the
    device, and that is the only call; when it was not, the state is
    unchanged and no call is made. In a table where a device hides the
    method it throws and nothing is removed or published. *)
Theorem removeDevice_removes_and_publishes_once (deviceId : string) (st : state) :
  (callable (devices st) ->
   exists st' out,
     removeDevice deviceId st = (Ok tt, st', out)
     /\ get deviceId (devices st') = None
     /\ (forall k, k <> deviceId -> get k (devices st') = get k (devices st))
     /\ out = (if own deviceId (devices st)
               then [TriggerDevices (getDevicesOf (devices st'))] else [])
     /\ (if own deviceId (devices st) then True else st' = st)
     /\ requests out = [])
  /\ (forall v,
        get "hasOwnProperty" (devices st) = Some v ->
        removeDevice deviceId st = (Throw TypeError, st, [])).
Proof.
  split.
  - intros Hc. rewrite (removeDevice_callable _ _ Hc), own_get.
    destruct (get deviceId (devices st)) as [d|] eqn:Hg.
    + eexists. eexists. split; [reflexivity|]. simpl.
      split; [apply get_delete_eq|].
      split; [intros k Hk; apply get_delete_ne, Hk|]. repeat split.
    + eexists. eexists. split; [reflexivity|].
      split; [exact Hg|]. repeat split.
  - intros v Hv. unfold removeDevice, bind at 1.
    rewrite (devicesHasOwnProperty_hidden _ _ _ Hv). reflexivity.
Qed.

(** *** Notifications and discovery responses *)

(** X2: a multicast notification that cannot be read does nothing; one
    that can is logged first. A goodbye then does what [removeDevice]
    does: in a table whose method can be called the device is out of the
    table and nothing is asked for. An alive or an update asks for the
    details at the location of the notification and sets the timer of a
    sweep, whether the id is known or not, and leaves the table alone.
    Another subtype is logged as an error, and that is all. *)
Theorem onMulticastNotification_by_advertisement (data : string) (st : state) :
  match notification_fromData data with
  | None => onMulticastNotification data st = (Ok tt, st, [])
  | Some n =>
      match advertisement n with
      | goodbye =>
          (let '(r, st', out) := removeDevice (notification_id n) st in
           onMulticastNotification data st
           = (r, st', Log debug "Got a notification message" :: out))
          /\ (callable (devices st) ->
              exists st' out,
                onMulticastNotification data st
                = (Ok tt, st', Log debug "Got a notification message" :: out)
                /\ get (notification_id n) (devices st') = None
                /\ (forall k, k <> notification_id n ->
                              get k (devices st') = get k (devices st))
                /\ requests out = []
                /\ notifications out
                   = (if own (notification_id n) (devices st)
                      then [getDevicesOf (devices st')] else []))
      | unknown _ =>
          onMulticastNotification data st
          = (Ok tt, st,
             [ Log debug "Got a notification message";
               Log error "Unknown advertisement type" ])
      | _ =>
          onMulticastNotification data st
          = (Ok tt, st,
             [ Log debug "Got a notification message";
               Log debug "Making device details request";
               HttpRequest (notification_location n);
               SetTimeout ManageDeviceDecay deviceMaxLifetime ])
      end
  end.
Proof.
  unfold onMulticastNotification.
  destruct (notification_fromData data) as [n|]; [|reflexivity].
  destruct (advertisement n) eqn:Hadv; try reflexivity.
  unfold bind at 1 2, call. cbn beta iota.
  split.
  - destruct (removeDevice (notification_id n) st) as [[r st'] out]. reflexivity.
  - intros Hc. rewrite (removeDevice_callable _ _ Hc), own_get.
    destruct (get (notification_id n) (devices st)) as [d|] eqn:Hg.
    + eexists. eexists. split; [reflexivity|]. simpl.
      split; [apply get_delete_eq|].
      split; [intros k Hk; apply get_delete_ne, Hk|]. repeat split.
    + eexists. eexists. split; [reflexivity|].
      split; [exact Hg|]. repeat split.
Qed.

(** X3: a discovery response that cannot be read makes no call and
    changes nothing. In a table whose method can be called, one for an id
    that is in the table makes no call and changes nothing either, and
    one for an id that is not in the table asks once for the details at
    its location and sets the timer of one sweep. In a table where a
    device hides the method, a response that can be read throws and asks
    for nothing. *)
Theorem onDiscoveryResponse_asks_for_unknown_ids_only (data : string) (st : state) :
  match discoveryResponse_fromData data with
  | None => onDiscoveryResponse data st = (Ok tt, st, [])
  | Some r =>
      (callable (devices st) ->
       if own (response_id r) (devices st)
       then onDiscoveryResponse data st = (Ok tt, st, [])
       else
         onDiscoveryResponse data st
         = (Ok tt, st,
            [ Log debug "Making device details request";
              HttpRequest (response_location r);
              SetTimeout ManageDeviceDecay deviceMaxLifetime ]))
      /\ (forall v,
            get "hasOwnProperty" (devices st) = Some v ->
            onDiscoveryResponse data st = (Throw TypeError, st, []))
  end.
Proof.
  unfold onDiscoveryResponse.
  destruct (discoveryResponse_fromData data) as [r|]; [|reflexivity].
  unfold bind. split.
  - intros Hc. rewrite (devicesHasOwnProperty_callable _ _ Hc).
    destruct (own (response_id r) (devices st)); reflexivity.
  - intros v Hv. rewrite (devicesHasOwnProperty_hidden _ _ _ Hv). reflexivity.
Qed.

(** *** Answers *)

(** X4: of two answers for the same id, an ordinary key, in a table whose
    method can be called, the second one is what the table holds
    afterwards, with the location of its own request as [infoUrl];
    nothing of the first is kept, the other entries are untouched, the
    keys are those after the first answer, and the second answer
    publishes no roster. *)
Theorem xhrCallback_second_answer_replaces_first
    (location1 location2 xml1 xml2 : string) (now1 now2 : Z)
    (d1 d2 : Device) (st : state) :
  device_fromXml now1 xml1 = Some d1 ->
  device_fromXml now2 xml2 = Some d2 ->
  id d1 = id d2 ->
  callable (devices st) ->
  id d2 <> "__proto__" ->
  id d2 <> "hasOwnProperty" ->
  exists st1 out1 st2 out2,
    xhrCallback location1 now1 xml1 st = (Ok tt, st1, out1)
    /\ xhrCallback location2 now2 xml2 st1 = (Ok tt, st2, out2)
    /\ get (id d2) (devices st2) = Some (setInfoUrl d2 location2)
    /\ (forall k, k <> id d2 -> get k (devices st2) = get k (devices st))
    /\ keys (devices st2) = keys (devices st1)
    /\ out2 = [Log debug "Updating device"]
    /\ notifications out2 = [].
Proof.
  intros H1 H2 Hid Hc Hproto Hmethod. unfold xhrCallback. rewrite H1, H2.
  assert (Hmethod1 : id (setInfoUrl d1 location1) <> "hasOwnProperty")
    by (simpl; rewrite Hid; exact Hmethod).
  pose proof (addDevice_callable (setInfoUrl d1 location1) st Hc Hmethod1) as Hrun1.
  set (st1 := setDevices _ st) in Hrun1.
  assert (Hc1 : callable (devices st1))
    by (apply callable_set; [exact Hmethod1 | exact Hc]).
  pose proof (addDevice_callable (setInfoUrl d2 location2) st1 Hc1 Hmethod) as Hrun2.
  assert (Hhas : get (id d2) (devices st1) = Some (setInfoUrl d1 location1)).
  { unfold st1. simpl. rewrite <- Hid. apply get_set_eq.
    rewrite Hid. exact Hproto. }
  rewrite own_get in Hrun2. simpl id in Hrun2. rewrite Hhas in Hrun2.
  exists st1. eexists. eexists. eexists.
  split; [exact Hrun1|]. split; [exact Hrun2|]. simpl.
  split; [apply get_set_eq, Hproto|].
  split; [|split; [|split; reflexivity]].
  - intros k Hk. rewrite get_set_ne by exact Hk.
    rewrite get_set_ne by (rewrite Hid; exact Hk). reflexivity.
  - exact (keys_set_present _ _ _ _ Hhas).
Qed.

(** *** The sweep *)

(** The requests a sweep over [ks] makes, read off the table it starts
    with. *)
Lemma forIn_decay_requests (referenceTime : Z) (ks : list string) (st : state) :
  callable (devices st) ->
  List.NoDup ks ->
  exists st' out,
    forIn ks (decayStep referenceTime) st = (Ok tt, st', out)
    /\ requests out
       = flat_map (fun k => match get k (devices st) with
                            | Some d => if lastUpdated d <=? referenceTime
                                        then [infoUrl d] else []
                            | None => []
                            end) ks
    /\ length (notifications out) = length (requests out)
    /\ decayTimers out = map (fun _ => deviceMaxLifetime) (requests out)
    /\ sends out = []
    /\ isServiceRunning st' = isServiceRunning st
    /\ multicastGroupSocket st' = multicastGroupSocket st
    /\ sockets st' = sockets st.
Proof.
  intros Hc Hnd. revert st Hc.
  induction Hnd as [|k0 ks Hnot Hnd IH]; intros st Hc.
  - exists st, []. repeat split.
  - cbn [forIn]. unfold bind at 1. rewrite (decayStep_result _ _ _ Hc).
    assert (Hsame : forall o,
               (forall k, In k ks -> get k o = get k (devices st)) ->
               flat_map (fun k => match get k o with
                                  | Some d => if lastUpdated d <=? referenceTime
                                              then [infoUrl d] else []
                                  | None => []
                                  end) ks
               = flat_map (fun k => match get k (devices st) with
                                    | Some d => if lastUpdated d <=? referenceTime
                                                then [infoUrl d] else []
                                    | None => []
                                    end) ks).
    { intros o Ho. clear IH Hnot Hnd. induction ks as [|k ks IHks]; [reflexivity|].
      simpl. rewrite Ho by (left; reflexivity).
      rewrite IHks by (intros k' Hk'; apply Ho; right; exact Hk'). reflexivity. }
    destruct (get k0 (devices st)) as [d0|] eqn:H0;
      [destruct (lastUpdated d0 <=? referenceTime) eqn:Hold|].
    + destruct (IH (setDevices (delete k0 (devices st)) st))
        as (st' & out & -> & Hreq & Hnot' & Htim & Hsend & Hrun & Hsock & Hcount);
        [apply callable_delete, Hc|].
      eexists. eexists. split; [reflexivity|].
      rewrite requests_app, notifications_app, decayTimers_app, sends_app.
      cbn [flat_map]. rewrite H0, Hold. simpl.
      split.
      { rewrite Hreq. simpl. f_equal. apply Hsame.
        intros k Hk. apply get_delete_ne. intros ->. exact (Hnot Hk). }
      split; [rewrite Hnot'; reflexivity|].
      split; [rewrite Htim; reflexivity|].
      repeat split; assumption.
    + destruct (IH st Hc)
        as (st' & out & -> & Hreq & Hnot' & Htim & Hsend & Hrun & Hsock & Hcount).
      eexists. eexists. split; [reflexivity|].
      cbn [flat_map app]. rewrite H0, Hold. simpl. repeat split; assumption.
    + destruct (IH st Hc)
        as (st' & out & -> & Hreq & Hnot' & Htim & Hsend & Hrun & Hsock & Hcount).
      eexists. eexists. split; [reflexivity|].
      cbn [flat_map app]. rewrite H0. simpl. repeat split; assumption.
Qed.

Lemma flat_map_agree (A B : Type) (f g : A -> list B) (l : list A) :
  (forall x, In x l -> f x = g x) -> flat_map f l = flat_map g l.
Proof.
  induction l as [|x l IH]; [reflexivity|]. intros Hfg. simpl.
  rewrite (Hfg x) by (left; reflexivity).
  rewrite IH by (intros y Hy; apply Hfg; right; exact Hy). reflexivity.
Qed.

Lemma flat_map_keys (A : Type) (f : option Device -> list A) (o : table Device) :
  List.NoDup (keys o) ->
  flat_map (fun k => f (get k o)) (keys o)
  = flat_map (fun d => f (Some d)) (getDevicesOf o).
Proof.
  induction o as [|[k0 d0] o IH]; [reflexivity|].
  intros Hnd. inversion Hnd as [|? ? Hnot Hrest]; subst.
  simpl. rewrite String.eqb_refl. f_equal.
  rewrite <- (IH Hrest). clear IH.
  apply flat_map_agree. intros k Hk.
  destruct (String.eqb_spec k0 k) as [->|_]; [contradiction | reflexivity].
Qed.

Lemma forIn_fresh (referenceTime : Z) (ks : list string) (st : state) :
  callable (devices st) ->
  (forall k d, get k (devices st) = Some d -> referenceTime < lastUpdated d) ->
  forIn ks (decayStep referenceTime) st = (Ok tt, st, []).
Proof.
  intros Hc Hfresh. induction ks as [|k0 ks IH]; [reflexivity|].
  cbn [forIn]. unfold bind. rewrite (decayStep_result _ _ _ Hc).
  destruct (get k0 (devices st)) as [d0|] eqn:H0.
  - apply Hfresh in H0. apply Z.leb_gt in H0. rewrite H0, IH. reflexivity.
  - rewrite IH. reflexivity.
Qed.

(** X5: in a table whose method can be called, after a sweep every device
    in the table was there before and has a [lastUpdated] later than the
    time of the sweep less [deviceMaxLifetime]: no decayed device is left
    and none is added or changed. When no device has decayed the sweep
    does nothing at all: the state is the same and no call is made. In a
    table where a device hides the method the sweep throws at the first
    key: the state, the decayed devices with it, is as before and no call
    is made. *)
Theorem manageDeviceDecay_leaves_only_fresh_devices (now : Z) (st : state) :
  (callable (devices st) ->
   exists st' out,
     manageDeviceDecay now st = (Ok tt, st', out)
     /\ (forall k d,
           get k (devices st') = Some d ->
           get k (devices st) = Some d
           /\ now - deviceMaxLifetime < lastUpdated d)
     /\ ((forall k d, get k (devices st) = Some d ->
                      now - deviceMaxLifetime < lastUpdated d) ->
         st' = st /\ out = []))
  /\ (forall v,
        get "hasOwnProperty" (devices st) = Some v ->
        manageDeviceDecay now st = (Throw TypeError, st, [])).
Proof.
  unfold manageDeviceDecay, bind at 1 2, gets. cbn beta iota zeta. split.
  - intros Hc.
    destruct (forIn_decay (now - deviceMaxLifetime) (keys (devices st)) st Hc)
      as (st' & out & Hrun & _ & Hget & _).
    rewrite Hrun. exists st', out. split; [reflexivity|]. split.
    + intros k d Hk. rewrite Hget in Hk.
      destruct (get k (devices st)) as [d0|] eqn:H0; [|discriminate].
      rewrite (existsb_eqb_In _ _ (get_Some_keys _ _ _ H0)), andb_true_r in Hk.
      destruct (lastUpdated d0 <=? now - deviceMaxLifetime) eqn:Hold; [discriminate|].
      injection Hk as <-. split; [reflexivity|]. apply Z.leb_gt, Hold.
    + intros Hfresh. rewrite (forIn_fresh _ _ _ Hc Hfresh) in Hrun.
      injection Hrun as <- <-. split; reflexivity.
  - intros v Hv.
    pose proof (manageDeviceDecay_hidden now st v Hv) as Hrun.
    unfold manageDeviceDecay, bind at 1, gets in Hrun. exact Hrun.
Qed.

(** X6: in a table that holds each id once and whose method can be
    called, a sweep asks for the details of the decayed devices, once for
    each, in the order of the table and at the [infoUrl] it had; it
    publishes one roster and sets one timer of [deviceMaxLifetime] for
    each of them, and sends no datagram. *)
Theorem manageDeviceDecay_asks_once_for_each_decayed (now : Z) (st : state) :
  callable (devices st) ->
  List.NoDup (keys (devices st)) ->
  exists st' out,
    manageDeviceDecay now st = (Ok tt, st', out)
    /\ requests out
       = map infoUrl
           (List.filter (fun d => lastUpdated d <=? now - deviceMaxLifetime)
                        (getDevicesOf (devices st)))
    /\ length (notifications out) = length (requests out)
    /\ decayTimers out = map (fun _ => deviceMaxLifetime) (requests out)
    /\ sends out = [].
Proof.
  intros Hc Hnd.
  unfold manageDeviceDecay, bind at 1, gets. cbn beta iota zeta.
  destruct (forIn_decay_requests (now - deviceMaxLifetime) _ st Hc Hnd)
    as (st' & out & -> & Hreq & Hnot & Htim & Hsend & _).
  exists st', out. split; [reflexivity|].
  split; [|repeat split; assumption].
  rewrite Hreq.
  rewrite (flat_map_keys _
             (fun e => match e with
                       | Some d => if lastUpdated d <=? now - deviceMaxLifetime
                                   then [infoUrl d] else []
                       | None => []
                       end) _ Hnd).
  induction (getDevicesOf (devices st)) as [|d ds IH]; [reflexivity|].
  simpl. destruct (lastUpdated d <=? now - deviceMaxLifetime); simpl;
    rewrite IH; reflexivity.
Qed.

(** *** What holds in every state the service reaches *)

Lemma keyedById_set (d : Device) (ds : table Device) :
  keyedById ds -> keyedById (set (id d) d ds).
Proof.
  intros Hk k d' Hg.
  destruct (String.eqb_spec (id d) "__proto__") as [Hproto|Hproto].
  - unfold set in Hg. rewrite Hproto in Hg. exact (Hk k d' Hg).
  - destruct (String.eqb_spec k (id d)) as [->|Hne].
    + rewrite get_set_eq in Hg by exact Hproto. injection Hg as <-. reflexivity.
    + rewrite get_set_ne in Hg by exact Hne. exact (Hk k d' Hg).
Qed.

Lemma keyedById_delete (k0 : string) (ds : table Device) :
  keyedById ds -> keyedById (delete k0 ds).
Proof.
  intros Hk k d Hg. destruct (String.eqb_spec k k0) as [->|Hne].
  - rewrite get_delete_eq in Hg. discriminate.
  - rewrite get_delete_ne in Hg by exact Hne. exact (Hk k d Hg).
Qed.

(** The ids of the roster are the keys of the table. *)
Lemma roster_ids (ds : table Device) :
  List.NoDup (keys ds) -> keyedById ds -> map id (getDevicesOf ds) = keys ds.
Proof.
  induction ds as [|[k d] ds IH]; [reflexivity|].
  intros Hnd Hk. inversion Hnd as [|? ? Hnot Hrest]; subst.
  simpl. f_equal.
  - apply Hk. simpl. rewrite String.eqb_refl. reflexivity.
  - apply IH; [exact Hrest|].
    intros k' d' Hg. apply Hk. simpl.
    destruct (String.eqb_spec k k') as [->|_]; [|exact Hg].
    destruct (get_None_keys ds k').
    + destruct (get k' ds) eqn:E; [|reflexivity].
      exfalso. exact (Hnot (get_Some_keys _ _ _ E)).
    + exact (get_Some_keys _ _ _ Hg).
Qed.

Lemma roster_NoDup (ds : table Device) :
  List.NoDup (keys ds) -> keyedById ds ->
  List.NoDup (map id (getDevicesOf ds)).
Proof. intros Hnd Hk. rewrite (roster_ids ds Hnd Hk). exact Hnd. Qed.

Lemma decayStep_table (referenceTime : Z) (k : string) (st : state) :
  List.NoDup (keys (devices st)) -> keyedById (devices st) ->
  exists r st' out,
    decayStep referenceTime k st = (r, st', out)
    /\ List.NoDup (keys (devices st')) /\ keyedById (devices st')
    /\ Forall (fun roster => List.NoDup (map id roster)) (notifications out)
    /\ length (requests out) = length (decayTimers out).
Proof.
  intros Hnd Hk.
  destruct (callable_or_hidden (devices st)) as [Hc|[v Hv]].
  - rewrite (decayStep_result _ _ _ Hc).
    destruct (get k (devices st)) as [d|];
      [destruct (lastUpdated d <=? referenceTime)|];
      eexists; eexists; eexists; (split; [reflexivity|]); simpl;
      repeat split; try assumption; try constructor;
      try (apply NoDup_keys_delete, Hnd); try (apply keyedById_delete, Hk);
      try constructor.
    apply roster_NoDup; [apply NoDup_keys_delete, Hnd | apply keyedById_delete, Hk].
  - rewrite (decayStep_hidden _ _ _ _ Hv).
    eexists. eexists. eexists. split; [reflexivity|].
    repeat split; try assumption; constructor.
Qed.

Lemma forIn_decay_table (referenceTime : Z) (ks : list string) (st : state) :
  List.NoDup (keys (devices st)) -> keyedById (devices st) ->
  exists r st' out,
    forIn ks (decayStep referenceTime) st = (r, st', out)
    /\ List.NoDup (keys (devices st')) /\ keyedById (devices st')
    /\ Forall (fun roster => List.NoDup (map id roster)) (notifications out)
    /\ length (requests out) = length (decayTimers out).
Proof.
  revert st. induction ks as [|k0 ks IH]; intros st Hnd Hk.
  - exists (Ok tt), st, []. repeat split; try assumption. constructor.
  - cbn [forIn]. unfold bind at 1.
    destruct (decayStep_table referenceTime k0 st Hnd Hk)
      as (r1 & st1 & out1 & -> & Hnd1 & Hk1 & Hros1 & Hlen1).
    destruct r1 as [[]|e].
    + destruct (IH st1 Hnd1 Hk1) as (r & st' & out & -> & Hnd' & Hk' & Hros & Hlen).
      eexists. eexists. eexists. split; [reflexivity|].
      rewrite notifications_app, requests_app, decayTimers_app, !length_app.
      repeat split; try assumption.
      * apply Forall_app. split; assumption.
      * rewrite Hlen1, Hlen. reflexivity.
    + eexists. eexists. eexists. split; [reflexivity|].
      repeat split; assumption.
Qed.

Lemma start_table (haveSocketSupport isClosed : bool) (st : state) :
  exists r st' out,
    start haveSocketSupport isClosed st = (r, st', out)
    /\ devices st' = devices st
    /\ requests out = [] /\ decayTimers out = []
    /\ (notifications out = [] \/ notifications out = [getDevicesOf (devices st)]).
Proof.
  unfold start. destruct haveSocketSupport; cbn [negb].
  - unfold bind at 1 2 3, call, modify, gets. cbn beta iota.
    destruct (match multicastGroupSocket (setRunning true st) with
              | Some _ => negb isClosed
              | None => false
              end).
    + eexists. eexists. eexists. split; [reflexivity|]. simpl. auto.
    + unfold bind at 1 2 3 4 5. cbn beta iota.
      destruct (getDevices_state
                  (setMulticastGroupSocket (sockets (setRunning true st))
                                           (setRunning true st)))
        as (r & -> & Hros).
      destruct r as [roster|e].
      * rewrite (Hros roster eq_refl).
        eexists. eexists. eexists. split; [reflexivity|]. simpl. auto.
      * eexists. eexists. eexists. split; [reflexivity|]. simpl. auto.
  - eexists. eexists. eexists. split; [reflexivity|]. simpl. auto.
Qed.

Lemma invoke_table (now : Z) (c : callback) (st : state) :
  List.NoDup (keys (devices st)) -> keyedById (devices st) ->
  exists r st' out,
    invoke now c st = (r, st', out)
    /\ List.NoDup (keys (devices st')) /\ keyedById (devices st')
    /\ Forall (fun roster => List.NoDup (map id roster)) (notifications out)
    /\ length (requests out) = length (decayTimers out).
Proof.
  intros Hnd Hk.
  destruct c as [hs ic|ic|location xml|data|data|s|s|[| |s time data]]; simpl.
  - destruct (start_table hs ic st) as (r & st' & out & -> & Hd & Hreq & Htim & Hnot).
    eexists. eexists. eexists. split; [reflexivity|].
    rewrite Hd, Hreq, Htim. repeat split; try assumption.
    destruct Hnot as [->| ->]; repeat constructor.
    apply roster_NoDup; assumption.
  - unfold stop, bind, gets, modify, call, ret. simpl.
    destruct (multicastGroupSocket st) as [s|]; [destruct ic|]; simpl;
      eexists; eexists; eexists; (split; [reflexivity|]); simpl;
      repeat split; try assumption; constructor.
  - unfold xhrCallback. destruct (device_fromXml now xml) as [d|].
    + destruct (addDevice_state (setInfoUrl d location) st)
        as (r & st' & out & -> & Hst & Hreq & Htim & Hnot).
      assert (Hnd' : List.NoDup (keys (devices st'))).
      { destruct Hst as [-> | ->]; [exact Hnd|]. apply NoDup_keys_set, Hnd. }
      assert (Hk' : keyedById (devices st')).
      { destruct Hst as [-> | ->]; [exact Hk|].
        apply (keyedById_set (setInfoUrl d location)), Hk. }
      eexists. eexists. eexists. split; [reflexivity|].
      rewrite Hreq, Htim. repeat split; try assumption.
      destruct Hnot as [-> | ->]; repeat constructor.
      apply roster_NoDup; assumption.
    + eexists. eexists. eexists. split; [reflexivity|]. simpl.
      repeat split; try assumption; constructor.
  - unfold onDiscoveryResponse.
    destruct (discoveryResponse_fromData data) as [r|].
    + unfold bind, devicesHasOwnProperty, requestDeviceDetails, call, ret. simpl.
      destruct (hasOwnProperty (response_id r) (devices st)) as [[|]|]; simpl;
        eexists; eexists; eexists; (split; [reflexivity|]); simpl;
        repeat split; try assumption; constructor.
    + eexists. eexists. eexists. split; [reflexivity|]. simpl.
      repeat split; try assumption; constructor.
  - unfold onMulticastNotification.
    destruct (notification_fromData data) as [n|].
    + destruct (advertisement n).
      * eexists. eexists. eexists. split; [reflexivity|]. simpl.
        repeat split; try assumption; constructor.
      * eexists. eexists. eexists. split; [reflexivity|]. simpl.
        repeat split; try assumption; constructor.
      * unfold bind at 1. simpl.
        destruct (removeDevice_state (notification_id n) st)
          as (r & st' & out & -> & Hst & Hreq & Htim & Hnot).
        assert (Hnd' : List.NoDup (keys (devices st'))).
        { destruct Hst as [-> | ->]; [exact Hnd|]. apply NoDup_keys_delete, Hnd. }
        assert (Hk' : keyedById (devices st')).
        { destruct Hst as [-> | ->]; [exact Hk|]. apply keyedById_delete, Hk. }
        eexists. eexists. eexists. split; [reflexivity|]. simpl.
        rewrite Hreq, Htim. repeat split; try assumption.
        destruct Hnot as [-> | ->]; repeat constructor.
        apply roster_NoDup; assumption.
      * eexists. eexists. eexists. split; [reflexivity|]. simpl.
        repeat split; try assumption; constructor.
    + eexists. eexists. eexists. split; [reflexivity|]. simpl.
      repeat split; try assumption; constructor.
  - eexists. eexists. eexists. split; [reflexivity|]. simpl.
    repeat split; try assumption; constructor.
  - eexists. eexists. eexists. split; [reflexivity|]. simpl.
    repeat split; try assumption; constructor.
  - unfold manageDeviceDecay, bind at 1, gets. cbn beta iota zeta.
    destruct (forIn_decay_table (now - deviceMaxLifetime) (keys (devices st)) st Hnd Hk)
      as (r & st' & out & -> & Hnd' & Hk' & Hros & Hlen).
    eexists. eexists. eexists. split; [reflexivity|].
    repeat split; assumption.
  - eexists. eexists. eexists. split; [reflexivity|]. simpl.
    repeat split; try assumption; constructor.
  - eexists. eexists. eexists. split; [reflexivity|]. simpl.
    repeat split; try assumption; constructor.
Qed.

Lemma loop_table (calls : list (Z * callback)) (st : state) :
  List.NoDup (keys (devices st)) -> keyedById (devices st) ->
  List.NoDup (keys (devices (fst (loop calls st))))
  /\ keyedById (devices (fst (loop calls st)))
  /\ Forall (fun roster => List.NoDup (map id roster))
            (notifications (snd (loop calls st)))
  /\ length (requests (snd (loop calls st)))
     = length (decayTimers (snd (loop calls st))).
Proof.
  revert st. induction calls as [|[now c] calls IH]; intros st Hnd Hk.
  - simpl. repeat split; try assumption. constructor.
  - simpl.
    destruct (invoke_table now c st Hnd Hk)
      as (r & st1 & out1 & -> & Hnd1 & Hk1 & Hros1 & Hlen1).
    destruct (IH st1 Hnd1 Hk1) as (Hnd2 & Hk2 & Hros2 & Hlen2).
    destruct (loop calls st1) as [st2 out2]. simpl in *.
    rewrite notifications_app, requests_app, decayTimers_app, !length_app.
    repeat split; try assumption.
    + apply Forall_app. split; assumption.
    + rewrite Hlen1, Hlen2. reflexivity.
Qed.

(** X7: whatever calls the host makes, in whatever order, from the
    initial state: the table holds each id once and every device under
    its own id, so the roster and every roster that was published list no
    id twice; and as many sweeps have been scheduled as detail requests
    were made. *)
Theorem service_keeps_one_device_per_id (calls : list (Z * callback)) :
  List.NoDup (keys (devices (fst (loop calls initial))))
  /\ keyedById (devices (fst (loop calls initial)))
  /\ List.NoDup (map id (getDevicesOf (devices (fst (loop calls initial)))))
  /\ Forall (fun roster => List.NoDup (map id roster))
            (notifications (snd (loop calls initial)))
  /\ length (requests (snd (loop calls initial)))
     = length (decayTimers (snd (loop calls initial))).
Proof.
  destruct (loop_table calls initial) as (Hnd & Hk & Hros & Hlen).
  - constructor.
  - intros k d Hg. discriminate.
  - repeat split; try assumption. apply roster_NoDup; assumption.
Qed.

(** *** Starting *)

Lemma start_makes_socket (isClosed : bool) (st : state) :
  multicastGroupSocket st = None \/ isClosed = true ->
  start true isClosed st
  = (let '(r, st', out) :=
       getDevices (setMulticastGroupSocket (sockets st) (setRunning true st)) in
     match r with
     | Ok roster =>
         (Ok tt, countSocket st',
          [ Log info "Starting the Sonos UPnP controller";
            UdpSocket (sockets st)
              {| remoteIp := "239.255.255.250"; localPort := Some 1900;
                 remotePort := None; timeout := None |};
            SocketOpen (sockets st) ]
          ++ out
          ++ [ TriggerDevices roster;
               Log info "Sending discovery on Sonos UPnP controller";
               UdpSocket (S (sockets st))
                 {| remoteIp := "239.255.255.250"; localPort := None;
                    remotePort := Some 1900; timeout := Some 30 |};
               SocketOpen (S (sockets st));
               SetTimeout Discover 3000;
               SetTimeout Discover 10000 ])
     | Throw e =>
         (Throw e, st',
          [ Log info "Starting the Sonos UPnP controller";
            UdpSocket (sockets st)
              {| remoteIp := "239.255.255.250"; localPort := Some 1900;
                 remotePort := None; timeout := None |};
            SocketOpen (sockets st) ]
          ++ out)
     end).
Proof.
  intros Hfresh.
  unfold start. cbn [negb]. unfold bind at 1 2 3, call, modify, gets.
  cbn beta iota.
  replace (match multicastGroupSocket (setRunning true st) with
           | Some _ => negb isClosed
           | None => false
           end) with false
    by (simpl; destruct Hfresh as [-> | ->];
        [reflexivity | destruct (multicastGroupSocket st); reflexivity]).
  unfold bind at 1 2 3 4 5. cbn beta iota.
  destruct (getDevices_state
              (setMulticastGroupSocket (sockets (setRunning true st))
                                       (setRunning true st)))
    as (r & Hr & _).
  change (sockets (setRunning true st)) with (sockets st) in *.
  rewrite Hr. destruct r as [roster|e]; reflexivity.
Qed.


(** X8: without socket support [start] logs an error and leaves the
    state, the running flag with it, as it was. With an open multicast
    socket it sets the flag and does nothing else. Otherwise it makes the
    multicast socket on port 1900; then, in a table whose method can be
    called, it publishes the roster once, makes the socket of a burst,
    sets the timers of two more bursts at 3 and 10 seconds, and leaves the
    table alone, and a second [start] while that socket is open only
    logs. In a table where a device hides the method, [start] throws
    where it reads the roster: the multicast socket is made and opened,
    but no roster is published, no burst is sent and no timer is set. *)
Theorem start_opens_one_multicast_socket
    (haveSocketSupport isClosed : bool) (st : state) :
  start false isClosed st
  = (Ok tt, st, [Log error "No socket support. Can not run Sonos controller."])
  /\ (forall s,
        multicastGroupSocket st = Some s ->
        start true false st
        = (Ok tt, setRunning true st, [Log info "Starting the Sonos UPnP controller"]))
  /\ (multicastGroupSocket st = None \/ isClosed = true ->
      callable (devices st) ->
      exists st' out,
        start true isClosed st = (Ok tt, st', out)
        /\ isServiceRunning st' = true
        /\ multicastGroupSocket st' = Some (sockets st)
        /\ sockets st' = (2 + sockets st)%nat
        /\ devices st' = devices st
        /\ notifications out = [getDevicesOf (devices st)]
        /\ timers 0 out = [(3000, Timeout Discover); (10000, Timeout Discover)]
        /\ In (UdpSocket (sockets st)
                 {| remoteIp := "239.255.255.250"; localPort := Some 1900;
                    remotePort := None; timeout := None |}) out
        /\ In (SocketOpen (sockets st)) out
        /\ In (SocketOpen (S (sockets st))) out
        /\ start true false st'
           = (Ok tt, st', [Log info "Starting the Sonos UPnP controller"])
        /\ out
           = [ Log info "Starting the Sonos UPnP controller";
               UdpSocket (sockets st)
                 {| remoteIp := "239.255.255.250"; localPort := Some 1900;
                    remotePort := None; timeout := None |};
               SocketOpen (sockets st);
               TriggerDevices (getDevicesOf (devices st));
               Log info "Sending discovery on Sonos UPnP controller";
               UdpSocket (S (sockets st))
                 {| remoteIp := "239.255.255.250"; localPort := None;
                    remotePort := Some 1900; timeout := Some 30 |};
               SocketOpen (S (sockets st));
               SetTimeout Discover 3000;
               SetTimeout Discover 10000 ])
  /\ (multicastGroupSocket st = None \/ isClosed = true ->
      forall v,
        get "hasOwnProperty" (devices st) = Some v ->
        start true isClosed st
        = (Throw TypeError,
           setMulticastGroupSocket (sockets st) (setRunning true st),
           [ Log info "Starting the Sonos UPnP controller";
             UdpSocket (sockets st)
               {| remoteIp := "239.255.255.250"; localPort := Some 1900;
                  remotePort := None; timeout := None |};
             SocketOpen (sockets st) ])).
Proof.
  split; [reflexivity|]. split; [|split].
  - intros s Hs. unfold start, bind, gets, modify, call, ret. simpl.
    rewrite Hs. reflexivity.
  - intros Hfresh Hc. rewrite (start_makes_socket _ _ Hfresh).
    rewrite getDevices_callable by exact Hc.
    eexists. eexists. split; [reflexivity|]. simpl.
    repeat split; auto 10.
  - intros Hfresh v Hv. rewrite (start_makes_socket _ _ Hfresh).
    rewrite (getDevices_hidden _ v) by exact Hv.
    reflexivity.
Qed.
End ServiceMore.

Lemma removeDevice_removes_and_publishes_once_witness :
  exists st' out,
    Sonos.removeDevice "RINCON_A" Sonos.twoPlayers = (Js.Ok tt, st', out)
    /\ Js.get "RINCON_A" (Sonos.devices st') = None
    /\ out = [Sonos.TriggerDevices [Sonos.bedroom]].
Proof.
  destruct (proj1 (removeDevice_removes_and_publishes_once
                     "RINCON_A" Sonos.twoPlayers) eq_refl)
    as (st' & out & Hrun & Hget & _ & Hout & _).
  exists st', out. split; [exact Hrun|]. split; [exact Hget|].
  rewrite Hout. vm_compute in Hrun. injection Hrun as <- _. reflexivity.
Defined.

Lemma onMulticastNotification_goodbye_witness :
  exists st' out,
    Sonos.onMulticastNotification (C := Sonos.sample) "byebye RINCON_A"
                                  Sonos.twoPlayers
    = (Js.Ok tt, st',
       Sonos.Log Sonos.debug "Got a notification message" :: out)
    /\ Js.get "RINCON_A" (Sonos.devices st') = None.
Proof.
  destruct (proj2 (onMulticastNotification_by_advertisement
                     (C := Sonos.sample) "byebye RINCON_A" Sonos.twoPlayers)
                  eq_refl)
    as (st' & out & Hrun & Hget & _).
  exists st', out. split; [exact Hrun | exact Hget].
Defined.

Lemma onDiscoveryResponse_asks_for_unknown_ids_witness :
  Sonos.onDiscoveryResponse (C := Sonos.sample) "RINCON_C" Sonos.twoPlayers
  = (Js.Ok tt, Sonos.twoPlayers,
     [ Sonos.Log Sonos.debug "Making device details request";
       Sonos.HttpRequest "http://RINCON_C";
       Sonos.SetTimeout Sonos.ManageDeviceDecay Sonos.deviceMaxLifetime ])
  /\ Sonos.onDiscoveryResponse (C := Sonos.sample) "RINCON_A" Sonos.twoPlayers
     = (Js.Ok tt, Sonos.twoPlayers, []).
Proof.
  split.
  - exact (proj1 (onDiscoveryResponse_asks_for_unknown_ids_only
                    (C := Sonos.sample) "RINCON_C" Sonos.twoPlayers) eq_refl).
  - exact (proj1 (onDiscoveryResponse_asks_for_unknown_ids_only
                    (C := Sonos.sample) "RINCON_A" Sonos.twoPlayers) eq_refl).
Defined.

Lemma start_opens_one_multicast_socket_witness :
  exists st' out,
    Sonos.start true false Sonos.initial = (Js.Ok tt, st', out)
    /\ Sonos.multicastGroupSocket st' = Some O
    /\ Sonos.start true false st'
       = (Js.Ok tt, st', [Sonos.Log Sonos.info "Starting the Sonos UPnP controller"]).
Proof.
  destruct (proj1 (proj2 (proj2 (start_opens_one_multicast_socket
                                   true false Sonos.initial)))
                  (or_introl eq_refl) eq_refl)
    as (st' & out & Hrun & _ & Hsock & _ & _ & _ & _ & _ & _ & _ & Hagain & _).
  exists st', out. split; [exact Hrun|]. split; [exact Hsock | exact Hagain].
Defined.

Lemma xhrCallback_second_answer_replaces_first_witness :
  exists st2,
    Sonos.loop (C := Sonos.sample)
               [(10%Z, Sonos.XhrCallback "http://a/xml" "RINCON_A");
                (20%Z, Sonos.XhrCallback "http://b/xml" "RINCON_A")]
               Sonos.initial
    = (st2, [ Sonos.Log Sonos.debug "Added new device";
              Sonos.TriggerDevices
                [{| Sonos.id := "RINCON_A"; Sonos.infoUrl := "http://a/xml";
                    Sonos.mediaStateUrl := ""; Sonos.lastUpdated := 10;
                    Sonos.details := [] |}];
              Sonos.Log Sonos.debug "Updating device" ])
    /\ Js.get "RINCON_A" (Sonos.devices st2)
       = Some {| Sonos.id := "RINCON_A"; Sonos.infoUrl := "http://b/xml";
                 Sonos.mediaStateUrl := ""; Sonos.lastUpdated := 20;
                 Sonos.details := [] |}.
Proof.
  destruct (xhrCallback_second_answer_replaces_first
              (C := Sonos.sample) "http://a/xml" "http://b/xml"
              "RINCON_A" "RINCON_A" 10 20 _ _ Sonos.initial
              eq_refl eq_refl eq_refl eq_refl)
    as (st1 & out1 & st2 & out2 & H1 & H2 & Hget & _);
    [discriminate | discriminate |].
  vm_compute in H1. injection H1 as <- <-.
  vm_compute in H2. injection H2 as <- <-.
  eexists. split; [vm_compute; reflexivity | exact Hget].
Defined.

Lemma manageDeviceDecay_leaves_only_fresh_devices_witness :
  exists st' out,
    Sonos.manageDeviceDecay 300000 Sonos.twoPlayers = (Js.Ok tt, st', out)
    /\ Sonos.devices st' = [("RINCON_B", Sonos.bedroom)]
    /\ forall k d, Js.get k (Sonos.devices st') = Some d ->
                   (0 < Sonos.lastUpdated d)%Z.
Proof.
  destruct (proj1 (manageDeviceDecay_leaves_only_fresh_devices
                     300000 Sonos.twoPlayers) eq_refl)
    as (st' & out & Hrun & Hfresh & _).
  exists st', out. split; [exact Hrun|]. split.
  - vm_compute in Hrun. injection Hrun as <- _. reflexivity.
  - intros k d Hk. exact (proj2 (Hfresh k d Hk)).
Defined.

Lemma manageDeviceDecay_asks_once_for_each_decayed_witness :
  exists st' out,
    Sonos.manageDeviceDecay 300000 Sonos.twoPlayers = (Js.Ok tt, st', out)
    /\ Sonos.requests out = ["http://10.0.0.2:1400/xml"].
Proof.
  destruct (manageDeviceDecay_asks_once_for_each_decayed 300000 Sonos.twoPlayers)
    as (st' & out & Hrun & Hreq & _).
  - reflexivity.
  - repeat constructor; simpl; intuition discriminate.
  - exists st', out. split; [exact Hrun | exact Hreq].
Defined.

(** *** The public requests *)

Section InterfaceFacts.
Import Js Sonos.
Local Open Scope Z_scope.

(** X9: for an argument that is no string [that.requestDeviceDetails]
    does nothing. For a string, in a table whose method can be called, it
    asks at the [infoUrl] of the device when the string is the id of a
    device in the table, and at the string itself when it is not; it sets
    the timer of one sweep and leaves the state alone. In a table where a
    device hides the method it throws for every string and asks for
    nothing. *)
Theorem that_requestDeviceDetails_by_id_or_address (about : value) (st : state) :
  match about with
  | VString text =>
      (callable (devices st) ->
       that_requestDeviceDetails about st
       = (Ok tt, st,
          [ Log debug "Making device details request";
            HttpRequest match get text (devices st) with
                        | Some device => infoUrl device
                        | None => text
                        end;
            SetTimeout ManageDeviceDecay deviceMaxLifetime ]))
      /\ (forall v,
            get "hasOwnProperty" (devices st) = Some v ->
            that_requestDeviceDetails about st = (Throw TypeError, st, []))
  | _ => that_requestDeviceDetails about st = (Ok tt, st, [])
  end.
Proof.
  destruct about as [| |b|n|text|props]; try reflexivity.
  split.
  - intros Hc. unfold that_requestDeviceDetails, bind at 1 2.
    rewrite (devicesHasOwnProperty_callable _ _ Hc), own_get.
    unfold deviceAt, bind, gets, ret. cbn beta iota.
    destruct (get text (devices st)) as [device|] eqn:Hg; cbn beta iota;
      rewrite ?Hg; reflexivity.
  - intros v Hv. unfold that_requestDeviceDetails, bind at 1 2.
    rewrite (devicesHasOwnProperty_hidden _ _ _ Hv). reflexivity.
Qed.

Section MediaState.
Context {MediaInfo : Type}.
Variable mediaInfo_fromXml : string -> option MediaInfo.
Variable soap_mediaInfo : string.

(** X10: [that.requestMediaState] for an argument that is no string, or,
    in a table whose method can be called, for an id that is not in the
    table, logs a warning and then throws a TypeError where it asks the
    missing device for its address: no SOAP request is made. For an id in
    such a table it makes one SOAP request, to the [mediaStateUrl] of that
    device. In a table where a device hides the method it throws for
    every string before it logs. An answer from which no media
    information can be built is logged and publishes nothing. *)
Theorem that_requestMediaState_needs_known_device (deviceId : value) (st : state) :
  (forall xml,
      mediaInfo_fromXml xml = None ->
      soapMediaInfoCallback mediaInfo_fromXml xml
      = [MediaLog error "Had problems to parse media info XML."])
  /\ (match deviceId with
      | VString _ => callable (devices st)
      | _ => True
      end ->
      match match deviceId with
            | VString text => get text (devices st)
            | _ => None
            end with
      | None =>
          that_requestMediaState (MediaInfo := MediaInfo) soap_mediaInfo deviceId st
          = (Throw TypeError,
             [ MediaLog debug "Requesting media state for device";
               MediaLog warning "No device in cache with id" ])
      | Some device =>
          that_requestMediaState (MediaInfo := MediaInfo) soap_mediaInfo deviceId st
          = (Ok tt,
             [ MediaLog debug "Requesting media state for device";
               SoapRequest (mediaStateUrl device) soap_mediaInfo ])
      end)
  /\ (forall text v,
        deviceId = VString text ->
        get "hasOwnProperty" (devices st) = Some v ->
        that_requestMediaState (MediaInfo := MediaInfo) soap_mediaInfo deviceId st
        = (Throw TypeError, [])).
Proof.
  split; [|split].
  - intros xml Hnone. unfold soapMediaInfoCallback. rewrite Hnone. reflexivity.
  - unfold that_requestMediaState.
    destruct deviceId as [| |b|n|text|props]; try reflexivity.
    intros Hc. rewrite (hasOwnProperty_callable _ _ Hc), own_get.
    destruct (get text (devices st)) as [device|] eqn:Hg; reflexivity.
  - intros text v -> Hv. unfold that_requestMediaState.
    rewrite (hasOwnProperty_hidden _ _ _ Hv). reflexivity.
Qed.
End MediaState.
End InterfaceFacts.

Lemma that_requestDeviceDetails_by_id_or_address_witness :
  Sonos.that_requestDeviceDetails (Js.VString "RINCON_A") Sonos.twoPlayers
  = (Js.Ok tt, Sonos.twoPlayers,
     [ Sonos.Log Sonos.debug "Making device details request";
       Sonos.HttpRequest "http://10.0.0.2:1400/xml";
       Sonos.SetTimeout Sonos.ManageDeviceDecay Sonos.deviceMaxLifetime ]).
Proof.
  exact (proj1 (that_requestDeviceDetails_by_id_or_address
                  (Js.VString "RINCON_A") Sonos.twoPlayers) eq_refl).
Defined.

Lemma that_requestMediaState_needs_known_device_witness :
  Sonos.that_requestMediaState (MediaInfo := unit) "GetMediaInfo"
                               (Js.VString "RINCON_B") Sonos.twoPlayers
  = (Js.Ok tt,
     [ Sonos.MediaLog Sonos.debug "Requesting media state for device";
       Sonos.SoapRequest "" "GetMediaInfo" ]).
Proof.
  exact (proj1 (proj2 (that_requestMediaState_needs_known_device
                         (fun _ => None) "GetMediaInfo"
                         (Js.VString "RINCON_B") Sonos.twoPlayers)) eq_refl).
Defined.
(* ===================================================================== *)
(** * Further properties of utils/xml.js *)
(* ===================================================================== *)

Section ParserMore.
Import Js Xml.

(** *** Before a document *)

(** X11: a parser object that has parsed nothing has no structure to
    show; every query on it throws a TypeError, and so do an open and a
    close tag, while text is dropped. *)
Theorem query_before_parse_throws (opts : value) (xpath : string) :
  exists p,
    xmlParser opts = Ok p
    /\ getXmlStructure p = None
    /\ query p xpath = Throw TypeError
    /\ (forall tagName tagAttributes,
          onOpenTag p tagName tagAttributes = Throw TypeError)
    /\ (forall tagName, onCloseTag p tagName = Throw TypeError)
    /\ (forall t, onText p t = p).
Proof.
  destruct (xmlParser_returns opts) as (a & b & ->).
  eexists. split; [reflexivity|]. split; [reflexivity|]. split.
  - unfold query. simpl.
    destruct (split "/" xpath) as [|first others]; [reflexivity|].
    destruct (String.eqb first ""); [destruct others|]; reflexivity.
  - repeat split.
Qed.

(** *** The leading slash *)

Lemma split_first_nonempty (c : ascii) (rest : string) :
  c <> "/"%char ->
  exists piece pieces,
    split "/" (String c rest) = String c piece :: pieces.
Proof.
  intros Hc. simpl. destruct (Ascii.eqb_spec c "/"%char); [contradiction|].
  destruct (split "/" rest); eauto.
Qed.

(** X12: the slash a path starts with makes no difference: "/foo/bar"
    and "foo/bar" are the same query. *)
Theorem query_leading_slash_is_optional (p : parser) (c : ascii) (rest : string) :
  c <> "/"%char ->
  query p (String "/" (String c rest)) = query p (String c rest).
Proof.
  intros Hc. unfold query.
  destruct (split_first_nonempty c rest Hc) as (piece & pieces & Hs).
  change (split "/" (String "/" (String c rest)))
    with ("" :: split "/" (String c rest)).
  rewrite Hs. reflexivity.
Qed.
End ParserMore.

Lemma query_leading_slash_is_optional_witness :
  exists p,
    Xml.parse Xml.fresh Xml.fooBarBaz = Js.Ok p
    /\ Xml.query p "/foo/bar" = Xml.query p "foo/bar".
Proof.
  eexists. split; [vm_compute; reflexivity|].
  apply (query_leading_slash_is_optional _ "f"%char "oo/bar").
  discriminate.
Defined.

Section Nesting.
Import Js Xml.

Lemma extends_refl (p : parser) : extends p p.
Proof.
  split; [reflexivity|]. split; [lia|]. intros l n Hl. eauto.
Qed.

Lemma extends_trans (p q r : parser) : extends p q -> extends q r -> extends p r.
Proof.
  intros (He1 & Hl1 & Hn1) (He2 & Hl2 & Hn2).
  split; [congruence|]. split; [lia|].
  intros l n Hl. destruct (Hn1 l n Hl) as (n1 & H1 & Ha & Hb & Hc).
  destruct (Hn2 l n1 H1) as (n2 & H2 & Ha2 & Hb2 & Hc2).
  exists n2. repeat split; congruence.
Qed.

Lemma extends_alter (p : parser) (f : node -> node) (l : loc) (more : list node)
      (c : option loc) :
  (forall n, name (f n) = name n /\ parent (f n) = parent n
             /\ attributes (f n) = attributes n) ->
  extends p (setCurrent (setStore p (alter f l (store p) ++ more)) c).
Proof.
  intros Hf. split; [reflexivity|]. split.
  - simpl. rewrite length_app, length_alter. lia.
  - intros i n Hi. simpl.
    rewrite lookup_app_l
      by (rewrite length_alter; eapply lookup_lt_Some; exact Hi).
    rewrite list_lookup_alter. case_decide; [subst i|eauto].
    rewrite Hi. simpl. exists (f n). split; [reflexivity|]. apply Hf.
Qed.

Lemma handle_extends (p p' : parser) (e : event) :
  handle p e = Ok p' -> extends p p'.
Proof.
  destruct e as [tagName tagAttributes|t|tagName|message]; simpl.
  - unfold onOpenTag. destruct (currentTagNode p) as [l|]; [|discriminate].
    intros [= <-]. apply extends_alter. intros n. repeat split.
  - intros [= <-]. unfold onText.
    destruct (currentTagNode p) as [l|] eqn:Hl; [|apply extends_refl].
    pose proof (extends_alter p (withText t) l [] (Some l)) as Hx.
    rewrite app_nil_r in Hx. unfold setCurrent in Hx. simpl in Hx.
    unfold setStore. rewrite Hl. apply Hx. intros n. repeat split.
  - unfold onCloseTag.
    destruct (deref (store p) (currentTagNode p)) as [cur|]; simpl; [|discriminate].
    destruct (sameName (name cur) (stripNamespace p tagName)); intros [= <-].
    + split; [reflexivity|]. split; [simpl; lia|]. intros l n Hl. eauto.
    + apply extends_refl.
  - intros [= <-]. apply extends_refl.
Qed.

Lemma feed_app (a b : list event) (p : parser) :
  feed p (a ++ b) = rbind (feed p a) (fun p' => feed p' b).
Proof.
  revert p. induction a as [|e a IH]; intros p; [reflexivity|].
  simpl. destruct (handle p e) as [p1|]; simpl; [apply IH | reflexivity].
Qed.

Lemma stripNamespace_same (p q : parser) (tagName : string) :
  excludeNamespace q = excludeNamespace p ->
  stripNamespace q tagName = stripNamespace p tagName.
Proof. intros Hq. unfold stripNamespace. rewrite Hq. reflexivity. Qed.

(** Well-nested events bring the parser back to the node it was at. *)
Lemma feed_nested (p : parser) (es : list event) :
  nested p es ->
  forall q l,
    excludeNamespace q = excludeNamespace p ->
    currentTagNode q = Some l -> l < length (store q) ->
    exists q', feed q es = Ok q' /\ currentTagNode q' = Some l /\ extends q q'.
Proof.
  induction 1 as [|t es _ IH
                  |openName tagAttributes inner closeName es
                     Hname Hclose _ IHinner _ IHrest];
    intros q l Hex Hcur Hlt.
  - exists q. split; [reflexivity|]. split; [exact Hcur | apply extends_refl].
  - assert (Hx : extends q (onText q t))
      by (apply (handle_extends q _ (Text t)); reflexivity).
    destruct (IH (onText q t) l) as (q' & Hfeed & Hcur' & Hx').
    + destruct Hx as (-> & _). exact Hex.
    + unfold onText. rewrite Hcur. exact Hcur.
    + destruct Hx as (_ & Hlen & _). lia.
    + exists q'. simpl. split; [exact Hfeed|].
      split; [exact Hcur' | eapply extends_trans; eauto].
  - (* an element: open, content, close, and what follows *)
    cbn [feed handle]. unfold onOpenTag. rewrite Hcur. cbn [rbind].
    set (local := stripNamespace q openName).
    assert (Hlocal : local = stripNamespace p openName)
      by (apply stripNamespace_same, Hex).
    set (child := xmlNode _).
    set (c := length (store q)).
    set (q1 := setCurrent _ (Some c)).
    assert (Hx1 : extends q q1).
    { apply extends_alter. intros n. repeat split. }
    assert (Hchild : store q1 !! c = Some child).
    { unfold q1. simpl. rewrite lookup_app_r by (rewrite length_alter; reflexivity).
      rewrite length_alter. unfold c. rewrite Nat.sub_diag. reflexivity. }
    assert (Hchildname : name child = Some local).
    { unfold child. simpl. rewrite Hlocal.
      destruct (String.eqb_spec (stripNamespace p openName) "");
        [contradiction | reflexivity]. }
    assert (Hchildparent : parent child = Some l) by reflexivity.
    rewrite feed_app.
    destruct (IHinner q1 c) as (q2 & Hfeed2 & Hcur2 & Hx2).
    + exact Hex.
    + reflexivity.
    + unfold q1. simpl. rewrite length_app, length_alter. simpl. unfold c. lia.
    + rewrite Hfeed2. cbn [rbind feed handle].
      destruct Hx2 as (Hex2 & Hlen2 & Hkeep2).
      destruct (Hkeep2 c child Hchild) as (child' & Hc' & Hn' & Hp' & _).
      assert (Hclosed : onCloseTag q2 closeName = Ok (setCurrent q2 (Some l))).
      { unfold onCloseTag, deref. rewrite Hcur2, Hc'. cbn [rbind].
        rewrite Hn', Hchildname, Hp', Hchildparent.
        rewrite (stripNamespace_same p q2) by (rewrite Hex2; exact Hex).
        rewrite Hclose, <- Hlocal. simpl. rewrite String.eqb_refl. reflexivity. }
      rewrite Hclosed. cbn [rbind].
      assert (Hx3 : extends q (setCurrent q2 (Some l))).
      { eapply extends_trans; [exact Hx1|].
        split; [exact Hex2|]. split; [exact Hlen2 | exact Hkeep2]. }
      destruct (IHrest (setCurrent q2 (Some l)) l) as (q4 & Hfeed4 & Hcur4 & Hx4).
      * simpl. rewrite Hex2. exact Hex.
      * reflexivity.
      * destruct Hx3 as (_ & Hlen3 & _). simpl in *. lia.
      * exists q4. split; [exact Hfeed4|]. split; [exact Hcur4|].
        eapply extends_trans; eauto.
Qed.

Lemma nested_same (p q : parser) (es : list event) :
  excludeNamespace q = excludeNamespace p -> nested p es -> nested q es.
Proof.
  intros Hq. induction 1; constructor; try assumption;
    rewrite !(stripNamespace_same p q) by exact Hq; assumption.
Qed.

Lemma nested_no_error (p : parser) (es : list event) :
  nested p es -> existsb isError es = false.
Proof.
  induction 1 as [|t es _ IH
                  |openName tagAttributes inner closeName es
                     _ _ _ IHinner _ IHrest]; simpl; try assumption.
  - reflexivity.
  - rewrite existsb_app. simpl. rewrite IHinner, IHrest. reflexivity.
Qed.

(** X13: for the events of well-nested elements, no error of sax among
    them, [parse] does not throw and ends at its root: [getXmlStructure]
    gives the node named "/" that [parse] made, with no parent, and every
    query is answered from it. With an element left open at the end
    [parse] ends at that element instead, and the queries are answered
    from there. With an error of sax among the events, whatever they are,
    [parse] throws. *)
Theorem parse_nested_ends_at_root (p : parser) (es : list event) :
  closed (store p) ->
  nested p es ->
  (exists p' root,
      parse p es = Ok p'
      /\ getXmlStructure p' = Some (length (store p))
      /\ store p' !! length (store p) = Some root
      /\ name root = Some "/" /\ parent root = None
      /\ forall xpath,
          query p' xpath
          = Ok (select (store p') (pathOf xpath) (length (store p))))
  /\ (forall openName tagAttributes,
        stripNamespace p openName <> "" ->
        exists p',
          parse p (OpenTag openName tagAttributes :: es) = Ok p'
          /\ getXmlStructure p' = Some (S (length (store p))))
  /\ (forall before message after,
        exists e, parse p (before ++ Error message :: after) = Throw e).
Proof.
  intros Hclosed Hnested.
  set (root := xmlNode {| opt_name := Some "/"; opt_attributes := None;
                          opt_text := None; opt_parent := None;
                          opt_children := None |}).
  set (q := setCurrent (setStore p (store p ++ [root])) (Some (length (store p)))).
  assert (Hroot : store q !! length (store p) = Some root).
  { unfold q. simpl. rewrite lookup_app_r by reflexivity.
    rewrite Nat.sub_diag. reflexivity. }
  assert (Hlen : length (store q) = S (length (store p))).
  { unfold q. simpl. rewrite length_app. simpl. lia. }
  pose proof (nested_no_error p es Hnested) as Hclean.
  split; [|split].
  - destruct (feed_nested p es Hnested q (length (store p)))
      as (p' & Hfeed & Hcur & Hx); [reflexivity | reflexivity | lia |].
    assert (Hparse : parse p es = Ok p').
    { unfold parse. fold root. fold q. rewrite Hfeed. cbn [rbind].
      rewrite Hclean. reflexivity. }
    destruct Hx as (_ & Hlen' & Hkeep).
    destruct (Hkeep _ root Hroot) as (root' & Hr & Hn & Hp & _).
    exists p', root'. split; [exact Hparse|].
    split; [exact Hcur|]. split; [exact Hr|].
    split; [rewrite Hn; reflexivity|]. split; [rewrite Hp; reflexivity|].
    intros xpath. unfold query. rewrite Hcur.
    rewrite subQuery_select.
    + unfold pathOf. destruct (split "/" xpath) as [|first others]; [reflexivity|].
      destruct (String.eqb first ""); reflexivity.
    + eapply parse_closed; [exact Hclosed | exact Hparse].
    + lia.
  - intros openName tagAttributes Hname.
    unfold parse. fold root. fold q.
    cbn [existsb isError orb]. rewrite Hclean.
    cbn [feed handle]. unfold onOpenTag.
    change (currentTagNode q) with (Some (length (store p))). cbn [rbind].
    set (q1 := setCurrent _ _).
    destruct (feed_nested p es Hnested q1 (length (store q)))
      as (p' & Hfeed & Hcur & _).
    + reflexivity.
    + reflexivity.
    + unfold q1, setCurrent, setStore. cbn [store].
      rewrite length_app, length_alter. simpl. lia.
    + exists p'. rewrite Hfeed. split; [reflexivity|]. rewrite <- Hlen. exact Hcur.
  - intros before message after. unfold parse. fold root. fold q.
    destruct (feed q (before ++ Error message :: after)) as [p'|e];
      cbn [rbind]; [|eauto].
    rewrite existsb_app. cbn [existsb isError]. rewrite orb_true_r. eauto.
Qed.
End Nesting.

Lemma parse_nested_ends_at_root_witness :
  exists p',
    Xml.parse Xml.fresh Xml.fooBarBaz = Js.Ok p'
    /\ Xml.getXmlStructure p' = Some O.
Proof.
  destruct (proj1 (parse_nested_ends_at_root Xml.fresh Xml.fooBarBaz closed_nil
     (Xml.nested_element Xml.fresh "foo" [] _ "foo" []
        ltac:(discriminate) eq_refl
        (Xml.nested_element Xml.fresh "bar" [] [] "bar" _
           ltac:(discriminate) eq_refl (Xml.nested_nil _)
           (Xml.nested_element Xml.fresh "bar" [] [] "bar" _
              ltac:(discriminate) eq_refl (Xml.nested_nil _)
              (Xml.nested_element Xml.fresh "baz" [] [] "baz" []
                 ltac:(discriminate) eq_refl (Xml.nested_nil _)
                 (Xml.nested_nil _))))
        (Xml.nested_nil _))))
    as (p' & root & Hparse & Hcur & _).
  exists p'. split; [exact Hparse | exact Hcur].
Defined.

Section QueryMore.
Import Js Xml.

Lemma handle_names (p p' : parser) (e : event) :
  namesNonEmpty (store p) -> handle p e = Ok p' -> namesNonEmpty (store p').
Proof.
  intros Hn. destruct e as [tagName tagAttributes|t|tagName|message]; simpl.
  - unfold onOpenTag. destruct (currentTagNode p) as [l|]; [|discriminate].
    intros [= <-]. simpl. intros i n Hi.
    destruct (decide (i < length (store p))) as [Hlt|Hge].
    + rewrite lookup_app_l in Hi by (rewrite length_alter; exact Hlt).
      rewrite list_lookup_alter in Hi. case_decide; [subst i|eauto].
      destruct (store p !! l) as [m|] eqn:Hm; simpl in Hi; [|discriminate].
      injection Hi as <-. simpl. eauto.
    + rewrite lookup_app_r in Hi by (rewrite length_alter; lia).
      rewrite length_alter in Hi.
      destruct (i - length (store p)) as [|k]; simpl in Hi.
      * injection Hi as <-. simpl.
        destruct (String.eqb_spec (stripNamespace p tagName) "");
          [discriminate | congruence].
      * rewrite lookup_nil in Hi. discriminate.
  - intros [= <-]. unfold onText.
    destruct (currentTagNode p) as [l|]; [|exact Hn].
    simpl. intros i n Hi. rewrite list_lookup_alter in Hi.
    case_decide; [subst i|eauto].
    destruct (store p !! l) as [m|] eqn:Hm; simpl in Hi; [|discriminate].
    injection Hi as <-. simpl. eauto.
  - unfold onCloseTag.
    destruct (deref (store p) (currentTagNode p)) as [cur|]; simpl; [|discriminate].
    destruct (sameName (name cur) (stripNamespace p tagName));
      intros [= <-]; exact Hn.
  - intros [= <-]. exact Hn.
Qed.

Lemma feed_names (es : list event) (p p' : parser) :
  namesNonEmpty (store p) -> feed p es = Ok p' -> namesNonEmpty (store p').
Proof.
  revert p. induction es as [|e es IH]; intros p Hn; simpl.
  - intros [= <-]. exact Hn.
  - destruct (handle p e) as [p1|] eqn:He; simpl; [|discriminate].
    apply IH. eapply handle_names; eauto.
Qed.

Lemma parse_names (es : list event) (p p' : parser) :
  store p = [] -> parse p es = Ok p' -> namesNonEmpty (store p').
Proof.
  intros Hs Hparse. apply parse_Ok in Hparse as [Hparse _]. revert Hparse.
  apply feed_names. simpl. rewrite Hs. simpl.
  intros [|i] n Hi; simpl in Hi.
  - injection Hi as <-. discriminate.
  - rewrite lookup_nil in Hi. discriminate.
Qed.

Lemma flat_map_nil (A B : Type) (f : A -> list B) (l : list A) :
  (forall x, In x l -> f x = []) -> flat_map f l = [].
Proof.
  induction l as [|x l IH]; [reflexivity|]. intros Hf. simpl.
  rewrite (Hf x) by (left; reflexivity).
  apply IH. intros y Hy. apply Hf. right. exact Hy.
Qed.

Lemma named_empty (h : list node) (c : loc) :
  namesNonEmpty h -> named h "" c = false.
Proof.
  intros Hn. unfold named. destruct (h !! c) as [n|] eqn:Hc; [|reflexivity].
  apply sameName_false. exact (Hn c n Hc).
Qed.

Lemma select_empty_segment (h : list node) (path : list string) (l : loc) :
  namesNonEmpty h -> In "" path -> select h path l = [].
Proof.
  intros Hn. revert l. induction path as [|segment rest IH]; intros l Hin.
  - destruct Hin.
  - destruct Hin as [->|Hin].
    + cbn [select].
      assert (Hnone : List.filter (named h "") (childrenOf h l) = []).
      { induction (childrenOf h l) as [|c cs IHc]; [reflexivity|].
        simpl. rewrite (named_empty h c Hn). exact IHc. }
      rewrite Hnone. destruct rest; reflexivity.
    + cbn [select]. destruct rest as [|s rest']; [destruct Hin|].
      apply flat_map_nil. intros c _. apply IH. exact Hin.
Qed.

(** X14: on a parsed document a path with an empty segment, as a slash
    at its end or two slashes in a row give, selects nothing: no node is
    named by the empty string. *)
Theorem query_empty_segment_selects_nothing
    (p p' : parser) (es : list event) (xpath : string) (l : loc) :
  store p = [] ->
  parse p es = Ok p' ->
  currentTagNode p' = Some l ->
  In "" (pathOf xpath) ->
  query p' xpath = Ok [].
Proof.
  intros Hs Hparse Hcur Hin.
  assert (Hclosed : closed (store p')).
  { eapply parse_closed; [|exact Hparse]. rewrite Hs. apply closed_nil. }
  destruct (parse_current es p p') as [_ Hvalid]; [rewrite Hs; apply rooted_nil | exact Hparse |].
  assert (Hq : query p' xpath = subQuery (store p') (pathOf xpath) (Some l)).
  { unfold query, pathOf. rewrite Hcur.
    destruct (split "/" xpath) as [|first others]; [reflexivity|].
    destruct (String.eqb first ""); reflexivity. }
  rewrite Hq, subQuery_select by auto.
  rewrite select_empty_segment; [reflexivity | | exact Hin].
  eapply parse_names; eauto.
Qed.

(** *** Where the results are *)

Lemma select_named (h : list node) (path : list string) (l r : loc) :
  In r (select h path l) -> named h (List.last path "") r = true.
Proof.
  revert l. induction path as [|segment rest IH]; intros l Hin; [destruct Hin|].
  cbn [select] in Hin. destruct rest as [|s rest'].
  - apply filter_In in Hin. apply Hin.
  - apply in_flat_map in Hin as (c & _ & Hr).
    change (List.last (segment :: s :: rest') "") with (List.last (s :: rest') "").
    exact (IH c Hr).
Qed.

Lemma ancestor_step (h : list node) (k : nat) (r c l : loc) (m : node) :
  ancestor h k r = Some c -> h !! c = Some m -> parent m = Some l ->
  ancestor h (S k) r = Some l.
Proof.
  revert r. induction k as [|k IH]; intros r Hr Hc Hp.
  - injection Hr as ->. simpl. rewrite Hc, Hp. reflexivity.
  - simpl in Hr. destruct (h !! r) as [n|] eqn:Hn; [|discriminate].
    destruct (parent n) as [q|] eqn:Hq; [|discriminate].
    change (ancestor h (S (S k)) r)
      with (match h !! r with
            | Some n => match parent n with
                        | Some q => ancestor h (S k) q
                        | None => None
                        end
            | None => None
            end).
    rewrite Hn, Hq. exact (IH q Hr Hc Hp).
Qed.

Lemma select_depth (h : list node) (path : list string) (l r : loc) :
  linked h -> In r (select h path l) -> ancestor h (length path) r = Some l.
Proof.
  intros Hlinked. revert l r.
  induction path as [|segment rest IH]; intros l r Hin; [destruct Hin|].
  cbn [select] in Hin.
  assert (Hchild : forall c, In c (List.filter (named h segment) (childrenOf h l)) ->
                             exists m, h !! c = Some m /\ parent m = Some l).
  { intros c Hc. apply filter_In in Hc as [Hc _]. unfold childrenOf in Hc.
    destruct (h !! l) as [n|] eqn:Hl; [|destruct Hc].
    exact (Hlinked l n c Hl Hc). }
  destruct rest as [|s rest'].
  - destruct (Hchild r Hin) as (m & Hm & Hp). simpl. rewrite Hm, Hp. reflexivity.
  - apply in_flat_map in Hin as (c & Hc & Hr).
    destruct (Hchild c Hc) as (m & Hm & Hp).
    exact (ancestor_step h _ r c l m (IH c r Hr) Hm Hp).
Qed.

Lemma linked_nil : linked [].
Proof. intros l n c Hl. rewrite lookup_nil in Hl. discriminate. Qed.

Lemma linked_snoc_leaf (h : list node) (n : node) :
  linked h -> children n = [] -> linked (h ++ [n]).
Proof.
  intros Hl Hn i m c Hi Hc.
  destruct (decide (i < length h)) as [Hlt|Hge].
  - rewrite lookup_app_l in Hi by exact Hlt.
    destruct (Hl i m c Hi Hc) as (k & Hk & Hp).
    exists k. split; [|exact Hp].
    rewrite lookup_app_l by (eapply lookup_lt_Some; exact Hk). exact Hk.
  - rewrite lookup_app_r in Hi by lia.
    destruct (i - length h) as [|j]; simpl in Hi.
    + injection Hi as <-. rewrite Hn in Hc. destruct Hc.
    + rewrite lookup_nil in Hi. discriminate.
Qed.

Lemma linked_alter (h : list node) (f : node -> node) (l : loc) :
  (forall n, children (f n) = children n /\ parent (f n) = parent n) ->
  linked h -> linked (alter f l h).
Proof.
  intros Hf Hl i m c Hi Hc.
  assert (Hold : exists m0, h !! i = Some m0 /\ children m0 = children m).
  { rewrite list_lookup_alter in Hi. case_decide; [subst i|eauto].
    destruct (h !! l) as [m0|]; simpl in Hi; [|discriminate].
    injection Hi as <-. exists m0. split; [reflexivity|]. symmetry. apply Hf. }
  destruct Hold as (m0 & Hm0 & Hch). rewrite <- Hch in Hc.
  destruct (Hl i m0 c Hm0 Hc) as (k & Hk & Hp).
  rewrite list_lookup_alter. case_decide; [subst c|eauto].
  rewrite Hk. simpl. exists (f k). split; [reflexivity|].
  rewrite (proj2 (Hf k)). exact Hp.
Qed.

Lemma linked_open (h : list node) (l : loc) (n : node) :
  linked h -> l < length h -> children n = [] -> parent n = Some l ->
  linked (alter (pushChild (length h)) l h ++ [n]).
Proof.
  intros Hl Hlt Hn Hp i m c Hi Hc.
  assert (Hnew : (alter (pushChild (length h)) l h ++ [n]) !! length h = Some n).
  { rewrite lookup_app_r by (rewrite length_alter; reflexivity).
    rewrite length_alter, Nat.sub_diag. reflexivity. }
  destruct (decide (i < length h)) as [Hi'|Hge].
  - rewrite lookup_app_l in Hi by (rewrite length_alter; exact Hi').
    assert (Hkeep : forall x k, h !! x = Some k ->
              exists k', (alter (pushChild (length h)) l h ++ [n]) !! x = Some k'
                         /\ parent k' = parent k).
    { intros x k Hx.
      rewrite lookup_app_l by (rewrite length_alter; eapply lookup_lt_Some; exact Hx).
      rewrite list_lookup_alter. case_decide; [subst x|eauto].
      rewrite Hx. simpl. eauto. }
    rewrite list_lookup_alter in Hi. case_decide; [subst i|].
    + destruct (h !! l) as [m0|] eqn:Hm0; simpl in Hi; [|discriminate].
      injection Hi as <-. simpl in Hc. apply in_app_or in Hc as [Hc|[<-|[]]].
      * destruct (Hl l m0 c Hm0 Hc) as (k & Hk & Hpk).
        destruct (Hkeep c k Hk) as (k' & Hk' & Hpk').
        exists k'. split; [exact Hk' | congruence].
      * exists n. split; [exact Hnew | exact Hp].
    + destruct (Hl i m c Hi Hc) as (k & Hk & Hpk).
      destruct (Hkeep c k Hk) as (k' & Hk' & Hpk').
      exists k'. split; [exact Hk' | congruence].
  - rewrite lookup_app_r in Hi by (rewrite length_alter; lia).
    rewrite length_alter in Hi.
    destruct (i - length h) as [|j]; simpl in Hi.
    + injection Hi as <-. rewrite Hn in Hc. destruct Hc.
    + rewrite lookup_nil in Hi. discriminate.
Qed.

Lemma handle_linked (p p' : parser) (e : event) :
  linked (store p) -> current p -> handle p e = Ok p' -> linked (store p').
Proof.
  intros Hl Hcur. destruct e as [tagName tagAttributes|t|tagName|message]; simpl.
  - unfold onOpenTag. destruct (currentTagNode p) as [l|] eqn:Hc; [|discriminate].
    intros [= <-]. simpl.
    apply linked_open; [exact Hl | apply Hcur, Hc | reflexivity | reflexivity].
  - intros [= <-]. unfold onText.
    destruct (currentTagNode p) as [l|]; [|exact Hl].
    simpl. apply linked_alter; [intros n; split; reflexivity | exact Hl].
  - unfold onCloseTag.
    destruct (deref (store p) (currentTagNode p)) as [cur|]; simpl; [|discriminate].
    destruct (sameName (name cur) (stripNamespace p tagName));
      intros [= <-]; exact Hl.
  - intros [= <-]. exact Hl.
Qed.

Lemma feed_linked (es : list event) (p p' : parser) :
  linked (store p) -> rooted (store p) -> current p ->
  feed p es = Ok p' -> linked (store p').
Proof.
  revert p. induction es as [|e es IH]; intros p Hl Hr Hcur; simpl.
  - intros [= <-]. exact Hl.
  - destruct (handle p e) as [p1|] eqn:He; simpl; [|discriminate].
    destruct (handle_current p p1 e Hr Hcur He) as [Hr1 Hcur1].
    apply IH; [eapply handle_linked; eauto | exact Hr1 | exact Hcur1].
Qed.

Lemma parse_linked (es : list event) (p p' : parser) :
  store p = [] -> parse p es = Ok p' -> linked (store p').
Proof.
  intros Hs Hparse. apply parse_Ok in Hparse as [Hparse _]. revert Hparse.
  apply feed_linked; simpl; rewrite Hs; simpl.
  - apply (linked_snoc_leaf [] _ linked_nil). reflexivity.
  - apply (rooted_snoc [] _ rooted_nil). simpl. discriminate.
  - intros l [= <-]. simpl. lia.
Qed.

(** X15: every node a query on a parsed document returns has the name
    of the last segment of the path, and as many steps up its [parent]
    references as the path has segments lead to the node the query
    started from: the results lie exactly that deep, no deeper. *)
Theorem query_results_lie_path_deep
    (p p' : parser) (es : list event) (xpath : string) (l : loc)
    (results : list loc) (r : loc) :
  store p = [] ->
  parse p es = Ok p' ->
  currentTagNode p' = Some l ->
  query p' xpath = Ok results ->
  In r results ->
  (exists n, store p' !! r = Some n
             /\ name n = Some (List.last (pathOf xpath) ""))
  /\ ancestor (store p') (length (pathOf xpath)) r = Some l.
Proof.
  intros Hs Hparse Hcur Hquery Hin.
  assert (Hclosed : closed (store p')).
  { eapply parse_closed; [|exact Hparse]. rewrite Hs. apply closed_nil. }
  destruct (parse_current es p p') as [_ Hvalid]; [rewrite Hs; apply rooted_nil | exact Hparse |].
  assert (Hq : query p' xpath = subQuery (store p') (pathOf xpath) (Some l)).
  { unfold query, pathOf. rewrite Hcur.
    destruct (split "/" xpath) as [|first others]; [reflexivity|].
    destruct (String.eqb first ""); reflexivity. }
  rewrite Hq, subQuery_select in Hquery by auto.
  injection Hquery as <-. split.
  - apply select_named in Hin. unfold named in Hin.
    destruct (store p' !! r) as [n|]; [|discriminate].
    exists n. split; [reflexivity|].
    destruct (name n) as [s|]; simpl in Hin; [|discriminate].
    apply String.eqb_eq in Hin. congruence.
  - apply select_depth; [|exact Hin]. eapply parse_linked; eauto.
Qed.
End QueryMore.

Lemma query_empty_segment_selects_nothing_witness :
  exists p,
    Xml.parse Xml.fresh Xml.fooBarBaz = Js.Ok p
    /\ Xml.query p "/foo/" = Js.Ok [] /\ Xml.query p "foo//bar" = Js.Ok [].
Proof.
  eexists. split; [vm_compute; reflexivity|]. split.
  - refine (query_empty_segment_selects_nothing
              Xml.fresh _ Xml.fooBarBaz "/foo/" O eq_refl _ _ _).
    + vm_compute; reflexivity.
    + reflexivity.
    + vm_compute. tauto.
  - vm_compute; reflexivity.
Defined.

Lemma query_results_lie_path_deep_witness :
  exists p,
    Xml.parse Xml.fresh Xml.fooBarBaz = Js.Ok p
    /\ Xml.ancestor (Xml.store p) 2 3 = Some O.
Proof.
  eexists. split; [vm_compute; reflexivity|].
  refine (proj2 (query_results_lie_path_deep
                   Xml.fresh _ Xml.fooBarBaz "/foo/bar" O [2; 3]%nat 3%nat
                   eq_refl _ _ _ _)).
  - vm_compute; reflexivity.
  - reflexivity.
  - vm_compute; reflexivity.
  - right; left; reflexivity.
Defined.

(** *** Namespace prefixes *)

Section Namespace.
Import Js Xml.
Local Open Scope Z_scope.

Lemma indexOf_range (c : ascii) (s : string) : -1 <= indexOf c s.
Proof.
  induction s as [|a s IH]; simpl; [lia|].
  destruct (Ascii.eqb a c); [lia|].
  destruct (indexOf c s <? 0) eqn:E; [lia|]. apply Z.ltb_ge in E. lia.
Qed.

Lemma indexOf_append (c : ascii) (before rest : string) :
  indexOf c before = -1 ->
  indexOf c (String.append before (String c rest))
  = Z.of_nat (String.length before).
Proof.
  induction before as [|a before IH]; simpl.
  - intros _. rewrite Ascii.eqb_refl. reflexivity.
  - destruct (Ascii.eqb a c); [discriminate|].
    destruct (indexOf c before <? 0) eqn:E.
    + intros _. rewrite IH.
      * destruct (Z.ltb_spec (Z.of_nat (String.length before)) 0); lia.
      * pose proof (indexOf_range c before). apply Z.ltb_lt in E. lia.
    + intros Habs. apply Z.ltb_ge in E. lia.
Qed.

Lemma substr_append (before rest : string) (c : ascii) :
  substr (S (String.length before)) (String.append before (String c rest)) = rest.
Proof.
  induction before as [|a before IH]; simpl; [destruct rest; reflexivity|].
  exact IH.
Qed.

(** X16: for every parser object, whatever its options, a tag name with
    a prefix is cut after its first colon, so [<u:x>] is stored as [x]
    (and [a:b:c] as [b:c]), and a name without a colon is kept whole. *)
Theorem stripNamespace_cuts_after_first_colon (opts : value) :
  exists p,
    xmlParser opts = Ok p
    /\ (forall before rest,
          indexOf ":" before = -1 ->
          stripNamespace p (String.append before (String ":" rest)) = rest)
    /\ (forall tagName,
          indexOf ":" tagName = -1 -> stripNamespace p tagName = tagName).
Proof.
  destruct (xmlParser_returns opts) as (a & b & ->).
  eexists. split; [reflexivity|]. split.
  - intros before rest Hnone. unfold stripNamespace. simpl.
    rewrite truthy_or_true, (indexOf_append _ _ _ Hnone).
    destruct (Z.leb_spec 0 (Z.of_nat (String.length before))) as [_|Hneg]; [|lia].
    simpl. replace (Z.to_nat (Z.of_nat (String.length before) + 1))
      with (S (String.length before)) by lia.
    apply substr_append.
  - intros tagName Hnone. unfold stripNamespace. rewrite Hnone.
    rewrite andb_false_r. reflexivity.
Qed.
End Namespace.

(** *** decodeXml on plain and on broken input *)

Section DecodeMore.
Import Js Uri Xml.
Local Open Scope N_scope.

Lemma replaceFrom_absent (first : N) (pat rep s : jsstring) :
  Forall (fun c => c <> first) s ->
  replaceFrom (first :: pat) rep O s = s.
Proof.
  induction 1 as [|c s Hc _ IH]; [reflexivity|].
  cbn [replaceFrom startsWith].
  destruct (N.eqb_spec first c) as [->|_]; [contradiction|].
  simpl. rewrite IH. reflexivity.
Qed.

(** X17: a text with no "%" and no "&" in it comes back from [decodeXml]
    as it went in. *)
Theorem decodeXml_plain_text_unchanged (s : jsstring) :
  Forall (fun c => c <> 37 /\ c <> 38) s ->
  decodeXml s = Ok s.
Proof.
  intros Hs. unfold decodeXml.
  rewrite decodeURI_no_escape
    by (eapply List.Forall_impl; [|exact Hs]; intros c [Hc _]; exact Hc).
  assert (Hamp : Forall (fun c => c <> 38) s)
    by (eapply List.Forall_impl; [|exact Hs]; intros c [_ Hc]; exact Hc).
  unfold rmap, rbind, replace.
  change (units "&lt;") with (38 :: units "lt;").
  change (units "&gt;") with (38 :: units "gt;").
  change (units "&quot;") with (38 :: units "quot;").
  change (units "&#039;") with (38 :: units "#039;").
  change (units "&amp;") with (38 :: units "amp;").
  rewrite (replaceFrom_absent 38 (units "lt;") _ s Hamp).
  rewrite (replaceFrom_absent 38 (units "gt;") _ s Hamp).
  rewrite (replaceFrom_absent 38 (units "quot;") _ s Hamp).
  rewrite (replaceFrom_absent 38 (units "#039;") _ s Hamp).
  rewrite (replaceFrom_absent 38 (units "amp;") _ s Hamp).
  reflexivity.
Qed.

(** What is decoded of a text does not depend on what follows it. *)
Lemma Decode_app (set : list N) (n : nat) :
  forall (s d t : jsstring),
    (length s <= n)%nat ->
    Decode set s = Ok d ->
    Decode set (s ++ t) = rmap (app d) (Decode set t).
Proof.
  induction n as [|n IH]; intros s d t Hlen Hd.
  - destruct s; [|simpl in Hlen; lia].
    injection Hd as <-. simpl. destruct (Decode set t); reflexivity.
  - destruct s as [|c s].
    { injection Hd as <-. simpl. destruct (Decode set t); reflexivity. }
    assert (Hrec : forall s' d',
               (length s' <= length s)%nat -> Decode set s' = Ok d' ->
               Decode set (s' ++ t) = rmap (app d') (Decode set t)).
    { intros s' d' Hl. apply IH. simpl in Hlen. lia. }
    cbn [Decode app] in Hd |- *.
    destruct (negb (c =? percent)).
    { destruct (Decode set s) as [d0|] eqn:E; [|discriminate].
      injection Hd as <-. rewrite (Hrec s d0) by (auto; lia).
      destruct (Decode set t); reflexivity. }
    destruct s as [|hi [|lo t1]]; try discriminate.
    cbn [app].
    destruct (hexByte hi lo) as [B|]; [|discriminate].
    destruct (B <? 128).
    { destruct (Decode set t1) as [d0|] eqn:E; [|discriminate].
      injection Hd as <-. rewrite (Hrec t1 d0) by (auto; simpl; lia).
      destruct (Decode set t); simpl; [rewrite <- app_assoc|]; reflexivity. }
    destruct (B <? 192); [discriminate|].
    destruct (B <? 224).
    { destruct t1 as [|p1 [|a1 [|b1 t2]]]; try discriminate. cbn [app].
      destruct (contOctet p1 a1 b1) as [o1|]; [|discriminate].
      destruct (codeUnits 128 (B mod 32 * 64 + o1)) as [u|]; [|discriminate].
      cbn [emit] in Hd |- *.
      destruct (Decode set t2) as [d0|] eqn:E; [|discriminate].
      injection Hd as <-. rewrite (Hrec t2 d0) by (auto; simpl; lia).
      destruct (Decode set t); simpl; [rewrite <- app_assoc|]; reflexivity. }
    destruct (B <? 240).
    { destruct t1 as [|p1 [|a1 [|b1 [|p2 [|a2 [|b2 t3]]]]]]; try discriminate.
      cbn [app].
      destruct (contOctet p1 a1 b1) as [o1|]; [|discriminate].
      destruct (contOctet p2 a2 b2) as [o2|]; [|discriminate].
      destruct (codeUnits 2048 ((B mod 16 * 64 + o1) * 64 + o2)) as [u|];
        [|discriminate].
      cbn [emit] in Hd |- *.
      destruct (Decode set t3) as [d0|] eqn:E; [|discriminate].
      injection Hd as <-. rewrite (Hrec t3 d0) by (auto; simpl; lia).
      destruct (Decode set t); simpl; [rewrite <- app_assoc|]; reflexivity. }
    destruct (B <? 248); [|discriminate].
    destruct t1 as [|p1 [|a1 [|b1 [|p2 [|a2 [|b2 [|p3 [|a3 [|b3 t4]]]]]]]]];
      try discriminate.
    cbn [app].
    destruct (contOctet p1 a1 b1) as [o1|]; [|discriminate].
    destruct (contOctet p2 a2 b2) as [o2|]; [|discriminate].
    destruct (contOctet p3 a3 b3) as [o3|]; [|discriminate].
    destruct (codeUnits 65536 (((B mod 8 * 64 + o1) * 64 + o2) * 64 + o3))
      as [u|]; [|discriminate].
    cbn [emit] in Hd |- *.
    destruct (Decode set t4) as [d0|] eqn:E; [|discriminate].
    injection Hd as <-. rewrite (Hrec t4 d0) by (auto; simpl; lia).
    destruct (Decode set t); simpl; [rewrite <- app_assoc|]; reflexivity.
Qed.

(** X18: [decodeURI] works piece by piece: when a text can be decoded,
    what follows it is decoded as if it stood alone and the results are
    joined. So a text that can be decoded, followed by a "%" that is not
    followed by two hexadecimal digits, makes [decodeXml] throw a
    URIError: a text like "100%" cannot be decoded. *)
Theorem decodeXml_throws_on_broken_escape (s d : jsstring) :
  decodeURI s = Ok d ->
  (forall t, decodeURI (s ++ t) = rmap (app d) (decodeURI t))
  /\ decodeXml (s ++ [percent]) = Throw URIError
  /\ (forall a, decodeXml (s ++ [percent; a]) = Throw URIError)
  /\ (forall a b rest,
        hexByte a b = None ->
        decodeXml (s ++ percent :: a :: b :: rest) = Throw URIError).
Proof.
  intros Hd.
  assert (Happ : forall t, decodeURI (s ++ t) = rmap (app d) (decodeURI t)).
  { intros t. unfold decodeURI in *. apply (Decode_app _ (length s)); auto. }
  split; [exact Happ|].
  unfold decodeXml. repeat split; intros; rewrite Happ.
  - reflexivity.
  - reflexivity.
  - unfold decodeURI. simpl. rewrite H. reflexivity.
Qed.
End DecodeMore.

Lemma decodeXml_plain_text_unchanged_witness :
  Xml.decodeXml (Uri.units "<foo>bar</foo>") = Js.Ok (Uri.units "<foo>bar</foo>").
Proof.
  apply decodeXml_plain_text_unchanged.
  vm_compute. repeat constructor; discriminate.
Defined.

Lemma decodeXml_throws_on_broken_escape_witness :
  Xml.decodeXml (Uri.units "100%") = Js.Throw Js.URIError.
Proof.
  exact (proj1 (proj2 (decodeXml_throws_on_broken_escape
                         (Uri.units "100") (Uri.units "100") eq_refl))).
Defined.

(** *** Reading a document back *)

Section ReadBack.
Import Js Xml.

Lemma stripNamespace_plain (p : parser) (tagName : string) :
  indexOf ":" tagName = (-1)%Z -> stripNamespace p tagName = tagName.
Proof.
  intros Hnone. unfold stripNamespace. rewrite Hnone, andb_false_r. reflexivity.
Qed.

Lemma forward_alter (h : list node) (f : node -> node) (l : loc) :
  (forall n, children (f n) = children n) -> forward h -> forward (alter f l h).
Proof.
  intros Hf Hfw i m c Hi Hc.
  rewrite list_lookup_alter in Hi. case_decide; [subst i|eauto].
  destruct (h !! l) as [m0|] eqn:Hm0; simpl in Hi; [|discriminate].
  injection Hi as <-. rewrite Hf in Hc. exact (Hfw l m0 c Hm0 Hc).
Qed.

Lemma forward_open (h : list node) (l : loc) (n : node) :
  forward h -> l < length h -> children n = [] ->
  forward (alter (pushChild (length h)) l h ++ [n]).
Proof.
  intros Hfw Hlt Hn i m c Hi Hc.
  destruct (decide (i < length h)) as [Hi'|Hge].
  - rewrite lookup_app_l in Hi by (rewrite length_alter; exact Hi').
    rewrite list_lookup_alter in Hi. case_decide; [subst i|eauto].
    destruct (h !! l) as [m0|] eqn:Hm0; simpl in Hi; [|discriminate].
    injection Hi as <-. simpl in Hc. apply in_app_or in Hc as [Hc|[<-|[]]].
    + exact (Hfw l m0 c Hm0 Hc).
    + exact Hlt.
  - rewrite lookup_app_r in Hi by (rewrite length_alter; lia).
    rewrite length_alter in Hi.
    destruct (i - length h) as [|j]; simpl in Hi.
    + injection Hi as <-. rewrite Hn in Hc. destruct Hc.
    + rewrite lookup_nil in Hi. discriminate.
Qed.

Lemma handle_forward (p p' : parser) (e : event) :
  forward (store p) -> current p -> handle p e = Ok p' -> forward (store p').
Proof.
  intros Hfw Hcur. destruct e as [tagName tagAttributes|t|tagName|message]; simpl.
  - unfold onOpenTag. destruct (currentTagNode p) as [l|] eqn:Hc; [|discriminate].
    intros [= <-]. simpl.
    apply forward_open; [exact Hfw | apply Hcur, Hc | reflexivity].
  - intros [= <-]. unfold onText.
    destruct (currentTagNode p) as [l|]; [|exact Hfw].
    simpl. apply forward_alter; [reflexivity | exact Hfw].
  - unfold onCloseTag.
    destruct (deref (store p) (currentTagNode p)) as [cur|]; simpl; [|discriminate].
    destruct (sameName (name cur) (stripNamespace p tagName));
      intros [= <-]; exact Hfw.
  - intros [= <-]. exact Hfw.
Qed.

(** The four things that hold of the store of a parser at work. *)
Lemma feed_sound (es : list event) (p p' : parser) :
  closed (store p) /\ forward (store p) /\ rooted (store p) /\ current p ->
  feed p es = Ok p' ->
  closed (store p') /\ forward (store p') /\ rooted (store p') /\ current p'.
Proof.
  revert p. induction es as [|e es IH]; intros p (Hc & Hf & Hr & Hcur); simpl.
  - intros [= <-]. auto.
  - destruct (handle p e) as [p1|] eqn:He; simpl; [|discriminate].
    apply IH. destruct (handle_current p p1 e Hr Hcur He).
    repeat split; eauto using handle_closed, handle_forward.
Qed.

Lemma readAll_agree (read read' : loc -> option element) (cs : list loc) :
  (forall c, In c cs -> read' c = read c) -> readAll read' cs = readAll read cs.
Proof.
  induction cs as [|c cs IH]; [reflexivity|]. intros Hr. simpl.
  rewrite (Hr c) by (left; reflexivity).
  rewrite IH by (intros x Hx; apply Hr; right; exact Hx). reflexivity.
Qed.

Lemma readAll_more (read read' : loc -> option element) (cs : list loc)
      (es : list element) :
  (forall c e, In c cs -> read c = Some e -> read' c = Some e) ->
  readAll read cs = Some es -> readAll read' cs = Some es.
Proof.
  revert es. induction cs as [|c cs IH]; intros es Hr; [auto|]. simpl.
  destruct (read c) as [e|] eqn:Hc; [|discriminate].
  destruct (readAll read cs) as [es'|] eqn:Hcs; [|discriminate].
  intros [= <-]. rewrite (Hr c e) by (auto; left; reflexivity).
  rewrite (IH es') by (auto; intros x y Hx; apply Hr; right; exact Hx).
  reflexivity.
Qed.

(** More depth reads the same element. *)
Lemma elementAt_deeper (h : list node) (d d' : nat) (l : loc) (e : element) :
  d <= d' -> elementAt d h l = Some e -> elementAt d' h l = Some e.
Proof.
  revert d' l e. induction d as [|d IH]; intros d' l e Hle; [discriminate|].
  destruct d' as [|d']; [lia|]. simpl.
  destruct (h !! l) as [n|]; [|discriminate].
  destruct (name n) as [tag|]; [|discriminate].
  destruct (readAll (elementAt d h) (children n)) as [content|] eqn:Hc;
    [|discriminate].
  intros [= <-].
  rewrite (readAll_more (elementAt d h) (elementAt d' h) _ content); auto.
  intros c e _. apply IH. lia.
Qed.

(** What is read from a node depends on the nodes after it only. *)
Lemma elementAt_frame (h h' : list node) (lo : nat) :
  closed h -> forward h ->
  (forall i, lo <= i -> i < length h -> h' !! i = h !! i) ->
  forall d l, lo <= l -> l < length h -> elementAt d h' l = elementAt d h l.
Proof.
  intros Hc Hf Hsame. induction d as [|d IH]; intros l Hlo Hlt; [reflexivity|].
  simpl. rewrite Hsame by assumption.
  destruct (h !! l) as [n|] eqn:Hn; [|reflexivity].
  rewrite (readAll_agree (elementAt d h) (elementAt d h')); [reflexivity|].
  intros c Hin. apply IH.
  - pose proof (Hf l n c Hn Hin). lia.
  - exact (Hc l n c Hn Hin).
Qed.

Lemma adds_nothing (q : parser) (l : loc) :
  currentTagNode q = Some l -> l < length (store q) -> adds q q l [].
Proof.
  intros Hcur Hlt. split; [exact Hcur|]. split; [lia|]. split; [auto|].
  destruct (lookup_lt_is_Some_2 (store q) l Hlt) as [n Hn].
  exists n, n. rewrite app_nil_r. repeat split; assumption.
Qed.

Lemma adds_more (q q1 q2 : parser) (l : loc) (cs1 cs2 : list loc) :
  adds q q1 l cs1 -> adds q1 q2 l cs2 -> adds q q2 l (cs1 ++ cs2).
Proof.
  intros (_ & Hlen1 & Hframe1 & n0 & n1 & Hn0 & Hn1 & Hch1 & Ha1 & Hb1 & Hc1 & Hd1)
         (Hcur2 & Hlen2 & Hframe2 & n1' & n2 & Hn1' & Hn2 & Hch2 & Ha2 & Hb2 & Hc2 & Hd2).
  rewrite Hn1 in Hn1'. injection Hn1' as <-.
  split; [exact Hcur2|]. split; [lia|]. split.
  - intros i Hi Hne. rewrite Hframe2 by (auto; lia). apply Hframe1; assumption.
  - exists n0, n2. rewrite Hch2, Hch1, <- app_assoc.
    repeat split; congruence.
Qed.

(** The elements in an element, one after the other. *)
Lemma feed_content (m : nat) (content : list element) :
  (forall e, In e content ->
     height e <= m
     /\ forall q l, sound q -> currentTagNode q = Some l ->
          exists q', feed q (eventsOf e) = Ok q'
                     /\ adds q q' l [length (store q)]
                     /\ elementAt (height e) (store q') (length (store q)) = Some e) ->
  forall q l, sound q -> currentTagNode q = Some l ->
    exists q' cs,
      feed q (flat_map eventsOf content) = Ok q'
      /\ adds q q' l cs
      /\ readAll (elementAt m (store q')) cs = Some content.
Proof.
  induction content as [|e content IH]; intros Hall q l Hsound Hcur.
  - exists q, []. split; [reflexivity|]. split; [|reflexivity].
    apply adds_nothing; [exact Hcur|]. apply Hsound, Hcur.
  - destruct (Hall e (or_introl eq_refl)) as [Hheight He].
    destruct (He q l Hsound Hcur) as (q1 & Hfeed1 & Hadds1 & Hread1).
    assert (Hsound1 : sound q1) by (eapply feed_sound; eauto).
    destruct (IH (fun e' Hin => Hall e' (or_intror Hin)) q1 l Hsound1 (proj1 Hadds1))
      as (q2 & cs & Hfeed2 & Hadds2 & Hread2).
    exists q2, (length (store q) :: cs).
    cbn [flat_map]. rewrite feed_app, Hfeed1. cbn [rbind].
    split; [exact Hfeed2|].
    split; [exact (adds_more q q1 q2 l _ _ Hadds1 Hadds2)|].
    cbn [readAll]. rewrite Hread2.
    assert (Hc1 : length (store q) < length (store q1)).
    { destruct (height e) as [|d]; [discriminate|]. simpl in Hread1.
      destruct (store q1 !! length (store q)) eqn:E; [|discriminate].
      eapply lookup_lt_Some; exact E. }
    assert (Hl : l < length (store q)) by (apply Hsound, Hcur).
    rewrite (elementAt_frame (store q1) (store q2) (length (store q))).
    + rewrite (elementAt_deeper _ _ m _ e Hheight Hread1). reflexivity.
    + apply Hsound1.
    + apply Hsound1.
    + intros i Hlo Hi. destruct Hadds2 as (_ & _ & Hframe & _).
      apply Hframe; [exact Hi | lia].
    + lia.
    + exact Hc1.
Qed.
(** One element: its open tag, its text, what is in it, its close tag. *)
Lemma feed_element_step (m : nat) (tag : string) (tagAttributes : attrs)
      (chunk : option string) (content : list element) :
  tag <> "" -> indexOf ":" tag = (-1)%Z ->
  (forall q l, sound q -> currentTagNode q = Some l ->
     exists q' cs,
       feed q (flat_map eventsOf content) = Ok q'
       /\ adds q q' l cs
       /\ readAll (elementAt m (store q')) cs = Some content) ->
  forall q l, sound q -> currentTagNode q = Some l ->
    exists q',
      feed q (eventsOf (Element tag tagAttributes chunk content)) = Ok q'
      /\ adds q q' l [length (store q)]
      /\ elementAt (S m) (store q') (length (store q))
         = Some (Element tag tagAttributes chunk content).
Proof.
  intros Htag Hcolon Hcontent q l Hsound Hcur.
  assert (Hl : l < length (store q)) by (apply Hsound, Hcur).
  destruct (lookup_lt_is_Some_2 (store q) l Hl) as [nl Hnl].
  set (c0 := length (store q)).
  set (n0 := {| name := Some tag; attributes := tagAttributes; text := None;
                parent := Some l; children := [] |}).
  set (q1 := setCurrent (setStore q (alter (pushChild c0) l (store q) ++ [n0]))
                        (Some c0)).
  assert (Hopen : handle q (OpenTag tag tagAttributes) = Ok q1).
  { simpl. unfold onOpenTag. rewrite Hcur, stripNamespace_plain by exact Hcolon.
    unfold xmlNode. simpl.
    destruct (String.eqb_spec tag ""); [contradiction | reflexivity]. }
  assert (Hsound1 : sound q1).
  { apply (feed_sound [OpenTag tag tagAttributes] q q1 Hsound).
    cbn [feed]. rewrite Hopen. reflexivity. }
  assert (Hlen1 : length (store q1) = S c0).
  { unfold q1. simpl. rewrite length_app, length_alter. simpl. unfold c0. lia. }
  assert (Hold1 : forall i, i < c0 -> i <> l -> store q1 !! i = store q !! i).
  { intros i Hi Hne. unfold q1. simpl.
    rewrite lookup_app_l by (rewrite length_alter; exact Hi).
    apply list_lookup_alter_ne. congruence. }
  assert (Hl1 : store q1 !! l = Some (pushChild c0 nl)).
  { unfold q1. simpl. rewrite lookup_app_l by (rewrite length_alter; exact Hl).
    rewrite list_lookup_alter_eq, Hnl. reflexivity. }
  assert (Hc1 : store q1 !! c0 = Some n0).
  { unfold q1. simpl. rewrite lookup_app_r by (rewrite length_alter; reflexivity).
    rewrite length_alter. unfold c0. rewrite Nat.sub_diag. reflexivity. }
  (* the text *)
  set (nc := {| name := Some tag; attributes := tagAttributes; text := chunk;
                parent := Some l; children := [] |}).
  assert (Htext : exists q1',
             feed q1 (match chunk with Some t => [Text t] | None => [] end) = Ok q1'
             /\ currentTagNode q1' = Some c0
             /\ length (store q1') = S c0
             /\ store q1' !! c0 = Some nc
             /\ forall i, i <> c0 -> store q1' !! i = store q1 !! i).
  { destruct chunk as [t|].
    - exists (onText q1 t). split; [reflexivity|].
      unfold onText. simpl. rewrite length_alter.
      split; [reflexivity|]. split; [exact Hlen1|]. split.
      + rewrite list_lookup_alter_eq.
        change (alter (pushChild c0) l (store q) ++ [n0]) with (store q1).
        rewrite Hc1. reflexivity.
      + intros i Hi. apply list_lookup_alter_ne. congruence.
    - exists q1. split; [reflexivity|]. split; [reflexivity|].
      split; [exact Hlen1|]. split; [exact Hc1 | reflexivity]. }
  destruct Htext as (q1' & Hfeedt & Hcur1' & Hlen1' & Hc1' & Hold1').
  assert (Hsound1' : sound q1') by (eapply feed_sound; eauto).
  destruct (Hcontent q1' c0 Hsound1' Hcur1')
    as (q2 & cs & Hfeed2 & (Hcur2 & Hlen2 & Hframe2 & m0 & m1 & Hm0 & Hm1
                            & Hch & Hnm & Hat & Htx & Hpa) & Hread).
  rewrite Hc1' in Hm0. injection Hm0 as <-. simpl in Hch, Hnm, Hat, Htx, Hpa.
  assert (Hclose : onCloseTag q2 tag = Ok (setCurrent q2 (Some l))).
  { unfold onCloseTag, deref. rewrite Hcur2, Hm1. cbn [rbind].
    rewrite stripNamespace_plain by exact Hcolon.
    rewrite Hnm, Hpa. simpl. rewrite String.eqb_refl. reflexivity. }
  exists (setCurrent q2 (Some l)). split; [|split].
  - cbn [eventsOf feed]. rewrite Hopen. cbn [rbind].
    rewrite feed_app, Hfeedt. cbn [rbind].
    rewrite feed_app, Hfeed2. cbn [rbind feed handle].
    rewrite Hclose. reflexivity.
  - split; [reflexivity|]. simpl. split; [fold c0; lia|]. split.
    + intros i Hi Hne. fold c0 in Hi.
      rewrite Hframe2 by lia. rewrite Hold1' by lia. apply Hold1; assumption.
    + exists nl, (pushChild c0 nl). split; [exact Hnl|]. split.
      * rewrite Hframe2 by lia. rewrite Hold1' by lia. exact Hl1.
      * repeat split.
  - cbn [elementAt setCurrent store]. rewrite Hm1, Hnm, Hch. simpl.
    rewrite Hread, Hat, Htx. reflexivity.
Qed.

Lemma feed_element (n : nat) :
  forall e, height e <= n -> plain e ->
    forall q l, sound q -> currentTagNode q = Some l ->
      exists q', feed q (eventsOf e) = Ok q'
                 /\ adds q q' l [length (store q)]
                 /\ elementAt (height e) (store q') (length (store q)) = Some e.
Proof.
  induction n as [|n IH]; intros [tag tagAttributes chunk content] Hh Hplain;
    [simpl in Hh; lia|].
  inversion Hplain as [? ? ? ? Htag Hcolon Hcontent]; subst.
  cbn [height] in *.
  apply feed_element_step; try assumption.
  apply feed_content. intros e Hin.
  assert (He : height e <= list_max (map height content)).
  { assert (Hmax := proj1 (list_max_le (map height content) _) (Nat.le_refl _)).
    rewrite List.Forall_forall in Hmax. apply Hmax. apply in_map, Hin. }
  split; [exact He|].
  apply IH; [lia|]. rewrite List.Forall_forall in Hcontent. exact (Hcontent e Hin).
Qed.

Lemma eventsOf_no_error (n : nat) :
  forall e, height e <= n -> existsb isError (eventsOf e) = false.
Proof.
  induction n as [|n IH]; intros [tag tagAttributes chunk content] Hh;
    [simpl in Hh; lia|].
  cbn [height] in Hh. cbn [eventsOf existsb isError orb].
  rewrite !existsb_app.
  assert (Hcontent : existsb isError (flat_map eventsOf content) = false).
  { assert (Hmax := proj1 (list_max_le (map height content) _) (Nat.le_refl _)).
    rewrite List.Forall_forall in Hmax.
    assert (Hall : forall e, In e content -> existsb isError (eventsOf e) = false).
    { intros e Hin. apply IH.
      assert (He : height e <= list_max (map height content))
        by (apply Hmax, in_map, Hin).
      lia. }
    clear Hh Hmax. induction content as [|e content IHc]; [reflexivity|].
    simpl. rewrite existsb_app, (Hall e) by (left; reflexivity).
    apply IHc. intros e' Hin. apply Hall. right. exact Hin. }
  rewrite Hcontent. destruct chunk; reflexivity.
Qed.

(** X19: parsing loses nothing of a document in which every element has
    at most one text chunk, and has it before its child elements, and no
    tag has a prefix: [parse] ends at its root, the root has the one
    child, and what is read back from that child is the document: its
    tags, attributes and text chunks, and the elements in it in their
    order, at every level. *)
Theorem parse_reads_back_the_document (p : parser) (e : element) :
  store p = [] ->
  plain e ->
  exists p',
    parse p (eventsOf e) = Ok p'
    /\ getXmlStructure p' = Some 0
    /\ childrenOf (store p') 0 = [1]
    /\ elementAt (height e) (store p') 1 = Some e.
Proof.
  intros Hs Hplain. unfold parse. rewrite Hs. cbn [app length].
  rewrite (eventsOf_no_error (height e) e (Nat.le_refl _)).
  set (q := setCurrent _ _).
  assert (Hsound : sound q).
  { unfold q. repeat split; simpl.
    - intros [|i] n c Hi Hc; simpl in Hi;
        [injection Hi as <-; destruct Hc | rewrite lookup_nil in Hi; discriminate].
    - intros [|i] n c Hi Hc; simpl in Hi;
        [injection Hi as <-; destruct Hc | rewrite lookup_nil in Hi; discriminate].
    - intros [|i] n c Hi Hc; simpl in Hi;
        [injection Hi as <-; discriminate | rewrite lookup_nil in Hi; discriminate].
    - intros l [= <-]. simpl. lia. }
  destruct (feed_element (height e) e (Nat.le_refl _) Hplain q 0 Hsound eq_refl)
    as (p' & Hfeed & (Hcur & _ & _ & n0 & n1 & Hn0 & Hn1 & Hch & _) & Hread).
  exists p'. rewrite Hfeed. split; [reflexivity|].
  split; [exact Hcur|]. split; [|exact Hread].
  unfold childrenOf. rewrite Hn1, Hch.
  unfold q in Hn0. simpl in Hn0. injection Hn0 as <-. reflexivity.
Qed.
End ReadBack.

Lemma parse_reads_back_the_document_witness :
  exists p',
    Xml.parse Xml.fresh
      [ Xml.OpenTag "device" []; Xml.OpenTag "name" [("lang", "en")];
        Xml.Text "Kitchen"; Xml.CloseTag "name"; Xml.CloseTag "device" ]
    = Js.Ok p'
    /\ Xml.elementAt 2 (Xml.store p') 1
       = Some (Xml.Element "device" [] None
                 [Xml.Element "name" [("lang", "en")] (Some "Kitchen") []]).
Proof.
  destruct (parse_reads_back_the_document Xml.fresh
              (Xml.Element "device" [] None
                 [Xml.Element "name" [("lang", "en")] (Some "Kitchen") []])
              eq_refl)
    as (p' & Hparse & _ & _ & Hread).
  - constructor; [discriminate | reflexivity|].
    constructor; [|constructor].
    constructor; [discriminate | reflexivity | constructor].
  - exists p'. split; [exact Hparse | exact Hread].
Defined.


(** *** A tag without a local name *)

Section NoName.
Import Js Xml.

(** X20: an element whose tag has nothing after its prefix is stored
    with the name null, and then no close tag closes it: the node stays
    the current one whatever close tag comes. *)
Theorem onOpenTag_without_local_name_never_closes
    (p : parser) (l : loc) (tagName : string) (tagAttributes : attrs) :
  currentTagNode p = Some l ->
  stripNamespace p tagName = "" ->
  exists p' n,
    onOpenTag p tagName tagAttributes = Ok p'
    /\ currentTagNode p' = Some (length (store p))
    /\ store p' !! length (store p) = Some n
    /\ name n = None
    /\ forall closeName es,
        onCloseTag p' closeName = Ok p'
        /\ feed p' (CloseTag closeName :: es) = feed p' es.
Proof.
  intros Hcur Hstrip. unfold onOpenTag. rewrite Hcur, Hstrip.
  eexists. eexists. split; [reflexivity|]. split; [reflexivity|].
  assert (Hnode : forall h : list node,
             (alter (pushChild (length h)) l h
              ++ [xmlNode {| opt_name := Some ""; opt_attributes := Some tagAttributes;
                             opt_text := None; opt_parent := Some l;
                             opt_children := None |}]) !! length h
             = Some {| name := None; attributes := tagAttributes; text := None;
                       parent := Some l; children := [] |}).
  { intros h. rewrite lookup_app_r by (rewrite length_alter; reflexivity).
    rewrite length_alter, Nat.sub_diag. reflexivity. }
  split; [apply Hnode|]. split; [reflexivity|].
  intros closeName es.
  assert (Hclose : forall q, currentTagNode q = Some (length (store p)) ->
             store q = alter (pushChild (length (store p))) l (store p)
                       ++ [xmlNode {| opt_name := Some ""; opt_attributes := Some tagAttributes;
                                      opt_text := None; opt_parent := Some l;
                                      opt_children := None |}] ->
             onCloseTag q closeName = Ok q).
  { intros q Hq Hsq. unfold onCloseTag, deref. rewrite Hq, Hsq, Hnode. reflexivity. }
  split.
  - apply Hclose; reflexivity.
  - cbn [feed handle]. rewrite Hclose by reflexivity. reflexivity.
Qed.
End NoName.

Lemma onOpenTag_without_local_name_witness :
  exists p p',
    Xml.parse Xml.fresh [] = Js.Ok p
    /\ Xml.onOpenTag p "u:" [] = Js.Ok p'
    /\ Xml.onCloseTag p' "u:" = Js.Ok p'.
Proof.
  eexists. eexists. split; [vm_compute; reflexivity|].
  destruct (onOpenTag_without_local_name_never_closes
              {| Xml.strict := Js.VBool true; Xml.excludeNamespace := Js.VBool true;
                 Xml.currentTagNode := Some O;
                 Xml.store := [ {| Xml.name := Some "/"; Xml.attributes := [];
                                   Xml.text := None; Xml.parent := None;
                                   Xml.children := [] |} ] |}
              O "u:" [] eq_refl eq_refl)
    as (p' & n & Hopen & _ & _ & _ & Hclose).
  vm_compute in Hopen. injection Hopen as <-.
  split; [vm_compute; reflexivity|]. exact (proj1 (Hclose "u:" [])).
Defined.
